(** * webmesh: membership, network ACL administration and IPAM allocation

    A shallow embedding of the handlers of the webmesh node that the
    specification talks about, and the properties of the specification
    settled against them:

    - [netip]: the values of Go's [net/netip] the IPAM plugin computes with;
    - [peers]: the peer record and the peers key space of the store;
    - [ipam]: the builtin IPAM plugin ([Allocate], [allocateV4],
      [allocateV6], [next32], [random64], [isStaticAllocation]);
    - [membership]: the [Leave] handler of the membership service;
    - [admin]: the [GetNetworkACL] and [PutNetworkACL] handlers;
    - [debug]: the database handlers of the builtin debug plugin;
    - [text] and [ex]: a reader of prefixes from text, and the concrete
      requests and servers the theorems are tried on;
    - [netutil]: the network utilities ([TimeToNTP], [MACtoEUI64],
      [GenerateULA], [Random64], [ParsePortRange], [ResolveTCPAddr]);
    - [state], [node], [firewall], [debug_server]: the RPC address
      queries of the mesh state, the [GetNode] handler, [Clear] of the
      iptables firewall, and the configuration and routes of the debug
      plugin;
    - [ipam_seq], [sep] and [cases]: series of IPAM calls, texts without
      a separator, and further examples.

    Collaborators that are not part of the sources (the consensus module,
    the request context, the authorisation evaluator, the storage layer)
    enter each handler as the answers they give to that call. *)

From Stdlib Require Import ZArith List String Ascii Lia Bool.
From Stdlib Require Import DecimalString HexadecimalString.
From Stdlib Require Import Sorted DecimalN.
From stdpp Require Import base gmap sets list strings.

Local Open Scope string_scope.
Local Open Scope Z_scope.

(** ** Go results and errors *)

(** gRPC status codes used by the handlers ([google.golang.org/grpc/codes]). *)
Inductive Code : Type :=
  | OK
  | Unknown
  | InvalidArgument
  | NotFound
  | PermissionDenied
  | FailedPrecondition
  | Internal.

#[global] Instance Code_eq_dec : EqDecision Code.
Proof. solve_decision. Defined.

(** A Go [error] value.  [Errorf] is a plain error made by [fmt.Errorf] or
    [errors.New]; [Status] is an error made by [status.Error] or
    [status.Errorf], which carries a gRPC code; the two sentinels are the
    package-level error variables the handlers compare against with [==]. *)
Inductive error : Type :=
  | Errorf (msg : string)
  | Status (c : Code) (msg : string)
  | ErrNodeNotFound
  | ErrACLNotFound.

#[global] Instance error_eq_dec : EqDecision error.
Proof. solve_decision. Defined.

(** [err.Error()]: the message of an error. *)
Definition Error (e : error) : string :=
  match e with
  | Errorf msg => msg
  | Status c msg => msg
  | ErrNodeNotFound => "node not found"
  | ErrACLNotFound => "network acl not found"
  end.

(** [status.Code(err)]: the code of a status error, [Unknown] for every
    error that is not a status error. *)
Definition status_Code (e : error) : Code :=
  match e with
  | Status c _ => c
  | _ => Unknown
  end.

(** The pair [(value, error)] a Go function returns, with exactly one side
    meaningful. *)
Inductive Result (A : Type) : Type :=
  | Ok (a : A)
  | Err (e : error).
Arguments Ok {A} a.
Arguments Err {A} e.

Definition is_Ok {A} (r : Result A) : bool :=
  match r with Ok _ => true | Err _ => false end.

(** The code a caller of the RPC observes. *)
Definition code_of {A} (r : Result A) : Code :=
  match r with Ok _ => OK | Err e => status_Code e end.

(** ** net/netip *)

Module netip.

Definition uint16 (z : Z) : Z := z mod 2 ^ 16.
Definition uint32 (z : Z) : Z := z mod 2 ^ 32.
Definition uint128 (z : Z) : Z := z mod 2 ^ 128.

(** [netip.Addr]: the zero value (which is not a valid address), an IPv4
    address (a 32-bit value) or an IPv6 address (a 128-bit value, kept
    here as one integer rather than as Go's pair of 64-bit halves).
    Zones do not occur: [ParsePrefix] refuses them and [PrefixFrom]
    strips them. *)
Inductive Addr : Type :=
  | AddrZero
  | IPv4 (a : Z)
  | IPv6 (a : Z).

#[global] Instance Addr_eq_dec : EqDecision Addr.
Proof. solve_decision. Defined.

#[global] Instance Addr_countable : Countable Addr.
Proof.
  refine (inj_countable'
            (fun ip => match ip with
                       | AddrZero => inl tt
                       | IPv4 a => inr (inl a)
                       | IPv6 a => inr (inr a)
                       end)
            (fun x => match x with
                      | inl _ => AddrZero
                      | inr (inl a) => IPv4 a
                      | inr (inr a) => IPv6 a
                      end) _).
  intros []; reflexivity.
Defined.

Definition Is4 (ip : Addr) : bool :=
  match ip with IPv4 _ => true | _ => false end.

Definition Is6 (ip : Addr) : bool :=
  match ip with IPv6 _ => true | _ => false end.

Definition BitLen (ip : Addr) : Z :=
  match ip with AddrZero => 0 | IPv4 _ => 32 | IPv6 _ => 128 end.

Definition isZero (ip : Addr) : bool :=
  match ip with AddrZero => true | _ => false end.

(** [Addr.Next]: the address after [ip], the zero [Addr] when there is
    none. *)
Definition Next (ip : Addr) : Addr :=
  match ip with
  | AddrZero => AddrZero
  | IPv4 a => let a' := uint32 (a + 1) in
              if a' =? 0 then AddrZero else IPv4 a'
  | IPv6 a => let a' := uint128 (a + 1) in
              if a' =? 0 then AddrZero else IPv6 a'
  end.

(** [netip.Prefix]: an address and a length; [Bits] is [-1] for an
    invalid prefix, as [Prefix.Bits()] reports it. *)
Record Prefix : Type := mkPrefix { Addr_ : Addr; Bits : Z }.

#[global] Instance Prefix_eq_dec : EqDecision Prefix.
Proof. solve_decision. Defined.

#[global] Instance Prefix_countable : Countable Prefix.
Proof.
  refine (inj_countable' (fun p => (Addr_ p, Bits p))
                         (fun x => mkPrefix (fst x) (snd x)) _).
  intros []; reflexivity.
Defined.

(** [netip.Prefix{}] *)
Definition PrefixZero : Prefix := mkPrefix AddrZero (-1).

Definition PrefixFrom (ip : Addr) (bits : Z) : Prefix :=
  if negb (isZero ip) && (0 <=? bits) && (bits <=? BitLen ip)
  then mkPrefix ip bits
  else mkPrefix ip (-1).

Definition IsValid (p : Prefix) : bool := 0 <=? Bits p.

(** [mask6 n]: the 128-bit mask with the top [n] bits set. *)
Definition mask6 (n : Z) : Z := uint128 (Z.shiftl (2 ^ 128 - 1) (128 - n)).

(** [Prefix.Contains] *)
Definition Contains (p : Prefix) (ip : Addr) : bool :=
  if negb (IsValid p) then false
  else if (BitLen (Addr_ p) =? 0) || (BitLen ip =? 0)
          || negb (BitLen (Addr_ p) =? BitLen ip) then false
  else match ip, Addr_ p with
       | IPv4 a, IPv4 pa =>
           uint32 (Z.shiftr (Z.lxor a pa) (Z.land (32 - Bits p) 63)) =? 0
       | IPv6 a, IPv6 pa =>
           Z.land (Z.lxor a pa) (mask6 (Bits p)) =? 0
       | _, _ => false
       end.

(** Decimal and lower-case hexadecimal text of a non-negative number. *)
Definition itoa (z : Z) : string :=
  if z <? 0 then "-" ++ DecimalString.NilZero.string_of_uint (N.to_uint (Z.to_N (- z)))
  else DecimalString.NilZero.string_of_uint (N.to_uint (Z.to_N z)).

Definition hex (z : Z) : string :=
  HexadecimalString.NilZero.string_of_uint (N.to_hex_uint (Z.to_N z)).

(** The [i]-th byte (from the most significant one) of a [w]-byte value. *)
Definition byte_at (w : Z) (a : Z) (i : Z) : Z :=
  Z.shiftr a (8 * (w - 1 - i)) mod 256.

(** The [i]-th 16-bit group of an IPv6 address, [Addr.v6u16]. *)
Definition v6u16 (a : Z) (i : Z) : Z :=
  Z.shiftr a (16 * (7 - i)) mod 2 ^ 16.

Definition string4 (a : Z) : string :=
  itoa (byte_at 4 a 0) ++ "." ++ itoa (byte_at 4 a 1) ++ "."
    ++ itoa (byte_at 4 a 2) ++ "." ++ itoa (byte_at 4 a 3).

(** The run of zero groups starting at group [i]: the first [j >= i]
    whose group is not zero (8 when there is none). *)
Fixpoint zero_run_end (a : Z) (i : Z) (n : nat) : Z :=
  match n with
  | O => i
  | S n' => if v6u16 a i =? 0 then zero_run_end a (i + 1) n' else i
  end.

(** The first loop of [Addr.appendTo6]: the longest run of at least two
    zero groups, the leftmost one on a tie; [(255, 255)] when none. *)
Fixpoint longest_zero_run (a : Z) (i : Z) (n : nat) (best : Z * Z) : Z * Z :=
  match n with
  | O => best
  | S n' =>
      let j := zero_run_end a i (Z.to_nat (8 - i)) in
      let l := j - i in
      let best' := if (2 <=? l) && (snd best - fst best <? l)
                   then (i, j) else best in
      longest_zero_run a (i + 1) n' best'
  end.

(** The second loop of [Addr.appendTo6]. *)
Fixpoint append_groups (a : Z) (zeroStart zeroEnd : Z) (i : Z) (n : nat) : string :=
  match n with
  | O => ""
  | S n' =>
      if 8 <=? i then ""
      else if i =? zeroStart then
        "::" ++ (if 8 <=? zeroEnd then ""
                 else hex (v6u16 a zeroEnd)
                        ++ append_groups a zeroStart zeroEnd (zeroEnd + 1) n')
      else
        (if 0 <? i then ":" else "") ++ hex (v6u16 a i)
          ++ append_groups a zeroStart zeroEnd (i + 1) n'
  end.

Definition string6 (a : Z) : string :=
  let '(zs, ze) := longest_zero_run a 0 8 (255, 255) in
  append_groups a zs ze 0 8.

(** [Addr.Is4In6]: an IPv4-mapped IPv6 address, [::ffff:a.b.c.d]. *)
Definition Is4In6 (ip : Addr) : bool :=
  match ip with
  | IPv6 a => Z.shiftr a 32 =? 65535
  | _ => false
  end.

(** [Addr.String] *)
Definition Addr_String (ip : Addr) : string :=
  match ip with
  | AddrZero => "invalid IP"
  | IPv4 a => string4 a
  | IPv6 a => if Is4In6 ip then "::ffff:" ++ string4 (uint32 a) else string6 a
  end.

(** [Prefix.String] *)
Definition Prefix_String (p : Prefix) : string :=
  if negb (IsValid p) then "invalid Prefix"
  else Addr_String (Addr_ p) ++ "/" ++ itoa (Bits p).

(** [Addr.AsSlice]: the bytes of the address, most significant first. *)
Definition AsSlice (ip : Addr) : list Z :=
  match ip with
  | AddrZero => []
  | IPv4 a => map (fun i => byte_at 4 a (Z.of_nat i)) (seq 0 4)
  | IPv6 a => map (fun i => byte_at 16 a (Z.of_nat i)) (seq 0 16)
  end.

Definition from_bytes (bs : list Z) : Z :=
  fold_left (fun acc b => acc * 256 + b) bs 0.

(** [netip.AddrFromSlice]: 4 bytes make an IPv4 address, 16 bytes an IPv6
    address, any other length fails. *)
Definition AddrFromSlice (bs : list Z) : Addr * bool :=
  match length bs with
  | 4%nat => (IPv4 (from_bytes bs), true)
  | 16%nat => (IPv6 (from_bytes bs), true)
  | _ => (AddrZero, false)
  end.

(** The representation invariant of the values: an address fits its
    width, and a prefix is valid. *)
Definition wf_Addr (ip : Addr) : Prop :=
  match ip with
  | AddrZero => True
  | IPv4 a => 0 <= a < 2 ^ 32
  | IPv6 a => 0 <= a < 2 ^ 128
  end.

Definition wf_Prefix (p : Prefix) : Prop :=
  wf_Addr (Addr_ p) /\ Addr_ p <> AddrZero /\ 0 <= Bits p <= BitLen (Addr_ p).

(** [Prefix.Masked]: the prefix with the bits of the address beyond its
    length zeroed, so that its address is the network address. *)
Definition Masked (p : Prefix) : Prefix :=
  if negb (IsValid p) then PrefixZero
  else match Addr_ p with
       | AddrZero => PrefixZero
       | IPv4 a => mkPrefix (IPv4 (Z.shiftl (Z.shiftr a (32 - Bits p)) (32 - Bits p))) (Bits p)
       | IPv6 a => mkPrefix (IPv6 (Z.shiftl (Z.shiftr a (128 - Bits p)) (128 - Bits p))) (Bits p)
       end.

(** The number an address stands for, and the order of the scan: [y] comes
    after [x] when both are of one family and [y] is the larger. *)
Definition val (ip : Addr) : Z :=
  match ip with AddrZero => 0 | IPv4 a => a | IPv6 a => a end.

Definition after (x y : Addr) : Prop := BitLen x = BitLen y /\ val x < val y.

End netip.

(** ** Peer records *)

Module peers.

(** Modelled from the spec: the feature enumeration of the API package,
    which is not part of the sources; only [Feature_RAFT] is named by the
    code, every other feature is kept by its number. *)
Inductive Feature : Type :=
  | Feature_RAFT
  | Feature_OTHER (tag : Z).

#[global] Instance Feature_eq_dec : EqDecision Feature.
Proof. solve_decision. Defined.

Record FeaturePort : Type := mkFeaturePort { Feature_ : Feature; Port : Z }.

(** Modelled from the spec: the peer record of the data model (identity,
    public key, advertised endpoints, allocated private addresses, the
    enabled features with their ports, a join timestamp and a
    zone-awareness tag); its declaration is not part of the sources. *)
Record Node : Type := mkNode {
  Id : string;
  PublicKey : string;
  PrimaryEndpoint : string;
  WireguardEndpoints : list string;
  ZoneAwarenessId : string;
  PrivateIPv4 : netip.Prefix;
  PrivateIPv6 : netip.Prefix;
  Features : list FeaturePort;
  JoinedAt : Z
}.

Definition PrivateAddrV4 (n : Node) : netip.Prefix := PrivateIPv4 n.
Definition PrivateAddrV6 (n : Node) : netip.Prefix := PrivateIPv6 n.

(** Modelled from the spec: [PortFor] is the port the node listens on for
    a feature, 0 when the feature is not enabled. *)
Fixpoint port_in (fs : list FeaturePort) (f : Feature) : Z :=
  match fs with
  | [] => 0
  | fp :: fs' => if bool_decide (Feature_ fp = f) then Port fp else port_in fs' f
  end.

Definition PortFor (n : Node) (f : Feature) : Z := port_in (Features n) f.

(** Modelled from the spec: the peers key space of the state store, one
    record per peer id.  [List], [Get] and [Delete] are the typed
    accessors [peers.New(storage)] gives; each takes the failure, if any,
    the storage layer answers this call with (a plain error, by its
    message). *)
Definition List (fault : option string) (db : gmap string Node) : Result (list Node) :=
  match fault with
  | Some msg => Err (Errorf msg)
  | None => Ok (snd <$> map_to_list db)
  end.

Definition Get (fault : option string) (db : gmap string Node) (id : string) : Result Node :=
  match fault with
  | Some msg => Err (Errorf msg)
  | None => match db !! id with
            | Some n => Ok n
            | None => Err ErrNodeNotFound
            end
  end.

Definition Delete (fault : option string) (db : gmap string Node) (id : string)
  : Result (gmap string Node) :=
  match fault with
  | Some msg => Err (Errorf msg)
  | None => Ok (delete id db)
  end.

End peers.

(** ** The IPAM plugin *)

Module ipam.
Import netip.

(** [Config]: the static address assignments, node name to address text. *)
Record Config : Type := mkConfig {
  StaticIPv4 : gmap string string;
  StaticIPv6 : gmap string string
}.

(** [Plugin]: the configuration and the storage handle, [None] until
    [InjectQuerier] has opened the query stream. *)
Record Plugin : Type := mkPlugin {
  config : Config;
  data : option (gmap string peers.Node)
}.

Inductive IPVersion : Type :=
  | IP_VERSION_UNKNOWN
  | IP_VERSION_4
  | IP_VERSION_6.

Record AllocateIPRequest : Type := mkAllocateIPRequest {
  NodeId : string;
  Subnet : string;
  Version : IPVersion
}.

Record AllocatedIP : Type := mkAllocatedIP { Ip : string }.

(** What a call depends on besides the plugin and the request: the failure
    the storage stream answers [List] with, if any, and the values
    [r.Intn(65536)] returns, by attempt. *)
Record Env : Type := mkEnv {
  list_fault : option string;
  Intn65536 : nat -> Z
}.

Definition static_values (m : gmap string string) : list string :=
  snd <$> map_to_list m.

Definition isStaticAllocation (p : Plugin) (ip : Prefix) : bool :=
  if Is4 (Addr_ ip)
  then existsb (fun addr => String.eqb addr (Prefix_String ip))
               (static_values (StaticIPv4 (config p)))
  else existsb (fun addr => String.eqb addr (Prefix_String ip))
               (static_values (StaticIPv6 (config p))).

(** The condition under which both allocators hand a candidate out. *)
Definition free (p : Plugin) (set : gset Prefix) (prefix : Prefix) : bool :=
  negb (bool_decide (prefix ∈ set)) && negb (isStaticAllocation p prefix).

(** The loop of [next32], from the candidate [ip] on.  It runs for as
    long as the candidate is inside [cidr]; [fuel] bounds the number of
    candidates it looks at, and [None] means the bound was reached. *)
Fixpoint next32_loop (fuel : nat) (p : Plugin) (cidr : Prefix)
    (set : gset Prefix) (ip : Addr) : option (Result Prefix) :=
  match fuel with
  | O => None
  | S fuel' =>
      if Contains cidr ip then
        let prefix := PrefixFrom ip 32 in
        if free p set prefix then Some (Ok prefix)
        else next32_loop fuel' p cidr set (Next ip)
      else Some (Err (Errorf ("no more addresses in " ++ Prefix_String cidr)))
  end.

(** The number of addresses of the block of [cidr], plus one: more than
    the loop can visit (see [next32_spec]). *)
Definition next32_fuel (cidr : Prefix) : nat :=
  S (Z.to_nat (2 ^ (BitLen (Addr_ cidr) - Bits cidr))).

Definition next32 (p : Plugin) (cidr : Prefix) (set : gset Prefix)
  : option (Result Prefix) :=
  next32_loop (next32_fuel cidr) p cidr set (Next (Addr_ cidr)).

(** [random64], given the value [n] that [r.Intn(65536)] returns. *)
Definition random64 (n : Z) (prefix : Prefix) : Result Prefix :=
  if negb (Is6 (Addr_ prefix)) then Err (Errorf "prefix must be IPv6")
  else if negb (Bits prefix =? 48) then Err (Errorf "prefix must be /48")
  else
    let ip := AsSlice (Addr_ prefix) in
    let subnet := uint16 n in
    let ip := <[6%nat := Z.shiftr subnet 8]> ip in
    let ip := <[7%nat := subnet mod 256]> ip in
    let '(addr, _) := AddrFromSlice ip in
    Ok (PrefixFrom addr 64).

Definition allocated_v4 (nodes : list peers.Node) : gset Prefix :=
  foldl (fun acc n => if IsValid (peers.PrivateIPv4 n)
                      then {[ peers.PrivateIPv4 n ]} ∪ acc else acc) ∅ nodes.

Definition allocated_v6 (nodes : list peers.Node) : gset Prefix :=
  foldl (fun acc n => if IsValid (peers.PrivateIPv6 n)
                      then {[ peers.PrivateIPv6 n ]} ∪ acc else acc) ∅ nodes.

Definition maxTries : nat := 100.

(** The loop of [allocateV6]: [left] is [maxTries - tries]. *)
Fixpoint allocateV6_loop (left : nat) (tries : nat) (p : Plugin) (env : Env)
    (globalPrefix : Prefix) (allocated : gset Prefix) : Result AllocatedIP :=
  match left with
  | O => Err (Errorf ("failed to find available IPv6 after "
                        ++ itoa (Z.of_nat maxTries) ++ " tries"))
  | S left' =>
      match random64 (Intn65536 env tries) globalPrefix with
      | Err e => Err (Errorf ("random IPv6: " ++ Error e))
      | Ok prefix =>
          if free p allocated prefix then Ok (mkAllocatedIP (Prefix_String prefix))
          else allocateV6_loop left' (S tries) p env globalPrefix allocated
      end
  end.

Section WithParser.
(** [netip.ParsePrefix], of the Go standard library. *)
Variable ParsePrefix : string -> Result Prefix.

Definition allocateV4 (p : Plugin) (db : gmap string peers.Node) (env : Env)
    (r : AllocateIPRequest) : option (Result AllocatedIP) :=
  match ParsePrefix (Subnet r) with
  | Err e => Some (Err (Errorf ("parse subnet: " ++ Error e)))
  | Ok globalPrefix =>
      match peers.List (list_fault env) db with
      | Err e => Some (Err (Errorf ("list nodes: " ++ Error e)))
      | Ok nodes =>
          let allocated := allocated_v4 nodes in
          match next32 p globalPrefix allocated with
          | None => None
          | Some (Err e) =>
              Some (Err (Errorf ("find next available IPv4: " ++ Error e)))
          | Some (Ok prefix) => Some (Ok (mkAllocatedIP (Prefix_String prefix)))
          end
      end
  end.

Definition allocateV6 (p : Plugin) (db : gmap string peers.Node) (env : Env)
    (r : AllocateIPRequest) : Result AllocatedIP :=
  match ParsePrefix (Subnet r) with
  | Err e => Err (Errorf ("parse subnet: " ++ Error e))
  | Ok globalPrefix =>
      match peers.List (list_fault env) db with
      | Err e => Err (Errorf ("list nodes: " ++ Error e))
      | Ok nodes =>
          allocateV6_loop maxTries 0 p env globalPrefix (allocated_v6 nodes)
      end
  end.

Definition Allocate (p : Plugin) (env : Env) (r : AllocateIPRequest)
  : option (Result AllocatedIP) :=
  match data p with
  | None => Some (Err (Errorf "plugin not configured"))
  | Some db =>
      match Version r with
      | IP_VERSION_4 =>
          match StaticIPv4 (config p) !! NodeId r with
          | Some addr => Some (Ok (mkAllocatedIP addr))
          | None => allocateV4 p db env r
          end
      | IP_VERSION_6 =>
          match StaticIPv6 (config p) !! NodeId r with
          | Some addr => Some (Ok (mkAllocatedIP addr))
          | None => Some (allocateV6 p db env r)
          end
      | IP_VERSION_UNKNOWN =>
          Some (Err (Errorf "unsupported IP version: IP_VERSION_UNKNOWN"))
      end
  end.
End WithParser.


(** A candidate address the scan of [next32] passes over. *)
Definition taken (p : Plugin) (set : gset Prefix) (ip : Addr) : Prop :=
  free p set (PrefixFrom ip 32) = false.

(** Where the scan of [next32] stands: the number of the candidate, and
    the end of the [L]-bit address space once [Next] has run over it. *)
Definition pos (L : Z) (ip : Addr) : Z := if isZero ip then 2 ^ L else val ip.

(** What the loop of [next32] has established when it ends, having started
    at candidate [ip]. *)
Definition loop_post (p : Plugin) (cidr : Prefix) (set : gset Prefix)
    (ip : Addr) (r : Result Prefix) : Prop :=
  let L := BitLen (Addr_ cidr) in
  match r with
  | Ok prefix =>
      exists ip1, prefix = PrefixFrom ip1 32 /\ wf_Addr ip1 /\ BitLen ip1 = L /\
        Contains cidr ip1 = true /\ pos L ip <= val ip1 /\ free p set prefix = true /\
        forall ip', wf_Addr ip' -> BitLen ip' = L ->
                    pos L ip <= val ip' < val ip1 -> taken p set ip'
  | Err e =>
      e = Errorf ("no more addresses in " ++ Prefix_String cidr) /\
      forall ip', wf_Addr ip' -> BitLen ip' = L -> pos L ip <= val ip' ->
                  Contains cidr ip' = true -> taken p set ip'
  end.



(** The address [random64] is to build, in the words of the
    specification: the first 48 bits of [a], then the 16-bit subnet id [s]
    in bits 48 to 63, then the last 64 bits of [a]. *)
Definition with_subnet (a s : Z) : Z :=
  a / 2 ^ 80 * 2 ^ 80 + s * 2 ^ 64 + a mod 2 ^ 64.

(** The candidate of attempt [k] of [allocateV6], for the prefix with
    address [a]. *)
Definition candidate (env : Env) (a : Z) (k : nat) : Prefix :=
  mkPrefix (IPv6 (with_subnet a (uint16 (Intn65536 env k)))) 64.


(** [Configure] stores the decoded configuration (or fails, when the
    configuration map does not decode, and stores nothing); [InjectQuerier]
    opens the storage handle.  Neither [GetInfo], [Configure] nor [Release]
    looks at the handle. *)
Definition Configure (p : Plugin) (decoded : Result Config) : Result unit * Plugin :=
  match decoded with
  | Err e => (Err (Errorf ("decode config: " ++ Error e)), p)
  | Ok c => (Ok tt, mkPlugin c (data p))
  end.

Definition InjectQuerier (p : Plugin) (db : gmap string peers.Node) : Plugin :=
  mkPlugin (config p) (Some db).

Definition Release (p : Plugin) : Result unit := Ok tt.

(** A plugin value before any call: Go's zero [Plugin]. *)
Definition zero_Plugin : Plugin := mkPlugin (mkConfig ∅ ∅) None.

(** The plugin after a series of [Configure] calls and no [InjectQuerier]. *)
Definition configured (decoded : list (Result Config)) : Plugin :=
  foldl (fun p c => snd (Configure p c)) zero_Plugin decoded.

End ipam.

(** ** The membership service: Leave *)

Module membership.

Record LeaveRequest : Type := mkLeaveRequest { Id : string }.

Record LeaveResponse : Type := mkLeaveResponse { }.

Inductive EventType : Type :=
  | Event_UNKNOWN
  | Event_NODE_JOIN
  | Event_NODE_LEAVE
  | Event_LEADER_CHANGE.

(** [v1.MeshNode], the node as plugins are told about it. *)
Record MeshNode : Type := mkMeshNode {
  Node_Id : string;
  Node_PrimaryEndpoint : string;
  Node_WireguardEndpoints : list string;
  Node_ZoneAwarenessId : string;
  Node_PublicKey : string;
  Node_PrivateIpv4 : string;
  Node_PrivateIpv6 : string;
  Node_Features : list peers.FeaturePort;
  Node_JoinedAt : Z
}.

Record Event : Type := mkEvent { Type_ : EventType; Node : MeshNode }.

(** [time.Duration], in nanoseconds. *)
Definition Second : Z := 1000000000.

(** The calls [Leave] makes that change something outside the handler, in
    the order it makes them.  A call is recorded when it is issued, whether
    or not it then succeeds. *)
Inductive Effect : Type :=
  | RaftRemoveServer (id : string) (flag : bool)
  | RaftBarrier (timeout : Z)
  | PeersDelete (id : string).

#[global] Instance Effect_eq_dec : EqDecision Effect.
Proof. solve_decision. Defined.

(** The server as [Leave] sees it: the peers key space of the raft storage,
    the calls issued so far, and the events handed to [plugins.Emit] by the
    detached goroutines started so far (these run concurrently with the
    rest of the handler, so their place among [trace] is not fixed). *)
Record Server : Type := mkServer {
  storage : gmap string peers.Node;
  trace : list Effect;
  emitted : list Event
}.

(** What one call of [Leave] gets from its collaborators, none of which is
    part of the sources: the request context ([context.IsInNetwork],
    [leaderproxy.ProxiedFor], [context.AuthenticatedCallerFrom]), the
    consensus module ([IsLeader], and whether [RemoveServer] fails), the
    authorisation module ([IsSecure]), whether the storage layer fails the
    [Get] and the [Delete], and the plugin manager ([None] when
    [s.plugins] is nil, else what [HasWatchers] answers).  What [Barrier]
    and [Emit] return is not here: the handler drops the first and only
    logs the second. *)
Record Env : Type := mkEnv {
  IsInNetwork : bool;
  IsLeader : bool;
  IsSecure : bool;
  ProxiedFor : option string;
  AuthenticatedCaller : option string;
  get_fault : option string;
  remove_fault : option string;
  delete_fault : option string;
  plugins : option bool
}.

(** The handler threads the server and an error through its calls. *)
Definition M (A : Type) : Type := Server -> Result A * Server.

Definition ret {A} (a : A) : M A := fun s => (Ok a, s).

Definition fail {A} (e : error) : M A := fun s => (Err e, s).

Definition bind {A B} (m : M A) (k : A -> M B) : M B :=
  fun s => match m s with
           | (Ok a, s') => k a s'
           | (Err e, s') => (Err e, s')
           end.

(** [defer d] in front of [body]: [d] runs when the function returns,
    whichever way [body] ends, and its result is dropped. *)
Definition defer {A} (d : M unit) (body : M A) : M A :=
  fun s => let '(r, s') := body s in
           let '(_, s'') := d s' in
           (r, s'').

Definition issue (e : Effect) : M unit :=
  fun s => (Ok tt, mkServer (storage s) (trace s ++ [e]) (emitted s)).

Definition of_fault (f : option string) : Result unit :=
  match f with Some msg => Err (Errorf msg) | None => Ok tt end.

(** [peers.New(s.raft.Storage()).Get(ctx, id)] *)
Definition peers_Get (env : Env) (id : string) : M (Result peers.Node) :=
  fun s => (Ok (peers.Get (get_fault env) (storage s) id), s).

(** [peers.New(s.raft.Storage()).Delete(ctx, id)] *)
Definition peers_Delete (env : Env) (id : string) : M (Result unit) :=
  fun s =>
    let s1 := mkServer (storage s) (trace s ++ [PeersDelete id]) (emitted s) in
    match peers.Delete (delete_fault env) (storage s) id with
    | Ok db => (Ok (Ok tt), mkServer db (trace s1) (emitted s1))
    | Err e => (Ok (Err e), s1)
    end.

(** [s.raft.RemoveServer(ctx, id, false)] *)
Definition raft_RemoveServer (env : Env) (id : string) (flag : bool) : M (Result unit) :=
  bind (issue (RaftRemoveServer id flag))
       (fun _ => ret (of_fault (remove_fault env))).

(** [s.raft.Barrier(ctx, timeout)] *)
Definition raft_Barrier (env : Env) (timeout : Z) : M unit :=
  issue (RaftBarrier timeout).

(** The body of the goroutine at the end of [Leave]. *)
Definition notify (env : Env) (leaving : peers.Node) : M unit :=
  fun s =>
    match plugins env with
    | Some true =>
        let ev := mkEvent Event_NODE_JOIN
          (mkMeshNode (peers.Id leaving)
                      (peers.PrimaryEndpoint leaving)
                      (peers.WireguardEndpoints leaving)
                      (peers.ZoneAwarenessId leaving)
                      (peers.PublicKey leaving)
                      (netip.Prefix_String (peers.PrivateAddrV4 leaving))
                      (netip.Prefix_String (peers.PrivateAddrV6 leaving))
                      (peers.Features leaving)
                      (peers.JoinedAt leaving)) in
        (Ok tt, mkServer (storage s) (trace s) (emitted s ++ [ev]))
    | _ => (Ok tt, s)
    end.

(** [go f]: the goroutine is started and the handler goes on. *)
Definition go (f : M unit) : M unit :=
  fun s => let '(_, s') := f s in (Ok tt, s').

(** [Leave].  The mutex the handler holds from the leader check on and its
    log lines are left out: calls are taken one at a time here. *)
Definition Leave (env : Env) (req : LeaveRequest) : M LeaveResponse :=
  if negb (IsInNetwork env) then
    fail (Status PermissionDenied "request is not in-network")
  else if String.eqb (Id req) "" then
    fail (Status InvalidArgument "id is required")
  else if negb (IsLeader env) then
    fail (Status FailedPrecondition "not leader")
  else
    bind
      (if IsSecure env then
         match ProxiedFor env with
         | Some proxiedFor =>
             if negb (String.eqb proxiedFor (Id req)) then
               fail (Status PermissionDenied
                       ("proxied for " ++ proxiedFor ++ ", not " ++ Id req))
             else ret tt
         | None =>
             match AuthenticatedCaller env with
             | Some peer =>
                 if negb (String.eqb peer (Id req)) then
                   fail (Status PermissionDenied
                           ("peer id " ++ peer ++ ", not " ++ Id req))
                 else ret tt
             | None =>
                 fail (Status PermissionDenied
                         "no peer authentication info in context")
             end
         end
       else ret tt)
      (fun _ =>
    bind (peers_Get env (Id req)) (fun got =>
    match got with
    | Err err =>
        if bool_decide (err = ErrNodeNotFound) then ret mkLeaveResponse
        else fail (Status Internal ("failed to get peer: " ++ Error err))
    | Ok leaving =>
        let remove_record : M LeaveResponse :=
          bind (peers_Delete env (Id req)) (fun deleted =>
          match deleted with
          | Err err =>
              fail (Status Internal ("failed to delete peer: " ++ Error err))
          | Ok _ =>
              bind (go (notify env leaving)) (fun _ => ret mkLeaveResponse)
          end) in
        if negb (peers.PortFor leaving peers.Feature_RAFT =? 0) then
          defer (raft_Barrier env (Second * 15))
            (bind (raft_RemoveServer env (Id req) false) (fun removed =>
             match removed with
             | Err err =>
                 fail (Status Internal
                         ("failed to remove raft member: " ++ Error err))
             | Ok _ => remove_record
             end))
        else remove_record
    end)).

(** The identity the caller is verified as: the one the request was
    proxied for when there is one, else the authenticated peer. *)
Definition caller_identity (env : Env) : option string :=
  match ProxiedFor env with
  | Some proxiedFor => Some proxiedFor
  | None => AuthenticatedCaller env
  end.

(** A request that passes the checks at the head of [Leave]: it comes from
    inside the network, names a target, reaches the leader and, when
    security is enabled, is made by the target itself. *)
Definition passes_checks (env : Env) (req : LeaveRequest) : Prop :=
  IsInNetwork env = true /\ Id req <> "" /\ IsLeader env = true /\
  (IsSecure env = true -> caller_identity env = Some (Id req)).

(** Call [x] is issued before call [y] in a trace. *)
Definition precedes (x y : Effect) (tr : list Effect) : Prop :=
  exists i j, tr !! i = Some x /\ tr !! j = Some y /\ (i < j)%nat.

End membership.

(** ** The admin service: network ACLs *)

Module admin.

(** [v1.NetworkACL]; the action is the number of the enumeration. *)
Record NetworkACL : Type := mkNetworkACL {
  Name : string;
  Priority : Z;
  Action : Z;
  SourceNodes : list string;
  DestinationNodes : list string;
  SourceCidrs : list string;
  DestinationCidrs : list string
}.

#[global] Instance NetworkACL_eq_dec : EqDecision NetworkACL.
Proof. solve_decision. Defined.

(** What one call gets from its collaborators: the consensus module, the
    authorisation evaluator ([Evaluate] answers a verdict and possibly an
    error, which is only logged), and whether the storage layer fails. *)
Record Env : Type := mkEnv {
  IsLeader : bool;
  Evaluate : bool * option error;
  put_fault : option string;
  get_fault : option string
}.

Fixpoint allEmpty (ss : list (list string)) : bool :=
  match ss with
  | [] => true
  | s :: ss' => if negb (length s =? 0)%nat then false else allEmpty ss'
  end.

(** Modelled from the spec: the ACL accessors of the state store
    ([networking.GetNetworkACL], [networking.PutNetworkACL]), which are not
    part of the sources.  An ACL is stored under its name, the primary
    key; the typed accessor round-trips, so the store keeps the ACL as it
    was put; a name that is not there is [ErrACLNotFound]. *)
Definition networking_GetNetworkACL (fault : option string)
    (db : gmap string NetworkACL) (name : string) : Result NetworkACL :=
  match fault with
  | Some msg => Err (Errorf msg)
  | None => match db !! name with
            | Some acl => Ok acl
            | None => Err ErrACLNotFound
            end
  end.

Definition networking_PutNetworkACL (fault : option string)
    (db : gmap string NetworkACL) (acl : NetworkACL) : Result (gmap string NetworkACL) :=
  match fault with
  | Some msg => Err (Errorf msg)
  | None => Ok (<[Name acl := acl]> db)
  end.

Section WithQuote.
(** [strconv.Quote], which the verb [%q] prints a string with; of the Go
    standard library. *)
Variable Quote : string -> string.

Definition GetNetworkACL (env : Env) (db : gmap string NetworkACL)
    (acl : NetworkACL) : Result NetworkACL :=
  if String.eqb (Name acl) "" then
    Err (Status InvalidArgument "acl name is required")
  else
    match networking_GetNetworkACL (get_fault env) db (Name acl) with
    | Err err =>
        if bool_decide (err = ErrACLNotFound) then
          Err (Status NotFound ("network acl " ++ Quote (Name acl) ++ " not found"))
        else Err (Status Internal (Error err))
    | Ok out => Ok out
    end.
End WithQuote.

Section WithValidation.
(** Of other packages, not part of the sources: [storageutil.IsValidID],
    [types.ValidateACL] (the error it finds, if any) and the table
    [v1.ACLAction_name] of the known actions. *)
Variable IsValidID : string -> bool.
Variable ValidateACL : NetworkACL -> option error.
Variable ACLAction_name : gmap Z string.

Definition PutNetworkACL (env : Env) (db : gmap string NetworkACL)
    (acl : NetworkACL) : Result unit * gmap string NetworkACL :=
  if negb (IsLeader env) then
    (Err (Status FailedPrecondition "not the leader"), db)
  else if String.eqb (Name acl) "" then
    (Err (Status InvalidArgument "acl name is required"), db)
  else if negb (IsValidID (Name acl)) then
    (Err (Status InvalidArgument "acl name must be a valid ID"), db)
  else if negb (fst (Evaluate env)) then
    (Err (Status PermissionDenied
            "caller does not have permission to put network acls"), db)
  else if negb (bool_decide (is_Some (ACLAction_name !! Action acl))) then
    (Err (Status InvalidArgument "invalid acl action"), db)
  else if allEmpty [DestinationCidrs acl; SourceCidrs acl;
                    SourceNodes acl; DestinationNodes acl] then
    (Err (Status InvalidArgument
            "at least one of destination_cidrs, source_cidrs, source_nodes, or destination_nodes must be set"),
     db)
  else
    match ValidateACL acl with
    | Some err => (Err (Status InvalidArgument (Error err)), db)
    | None =>
        match networking_PutNetworkACL (put_fault env) db acl with
        | Err err => (Err (Status Internal (Error err)), db)
        | Ok db' => (Ok tt, db')
        end
    end.

(** The store after a series of [PutNetworkACL] calls, each with the
    answers of its collaborators. *)
Definition put_all (calls : list (Env * NetworkACL)) (db : gmap string NetworkACL)
    : gmap string NetworkACL :=
  foldl (fun db c => snd (PutNetworkACL (fst c) db (snd c))) db calls.

End WithValidation.

(** The four match sets of an ACL, and a request that has none. *)
Definition no_match_set (acl : NetworkACL) : Prop :=
  SourceCidrs acl = [] /\ DestinationCidrs acl = [] /\
  SourceNodes acl = [] /\ DestinationNodes acl = [].

End admin.

(** ** The debug plugin: database handlers *)

Module debug.

(** What a handler writes to the [http.ResponseWriter]. *)
Record Response : Type := mkResponse { StatusCode : Z; Body : string }.

Definition StatusOK : Z := 200.
Definition StatusBadRequest : Z := 400.
Definition StatusInternalServerError : Z := 500.
Definition StatusNotImplemented : Z := 501.

(** [http.Error]: the status code and the message on a line of its own. *)
Definition http_Error (msg : string) (code : Z) : Response :=
  mkResponse code (msg ++ String "010" "").

(** [storage.MeshStorage], the interface of the storage handle, with the
    two queries the handlers issue. *)
Record MeshStorage : Type := mkMeshStorage {
  List : string -> Result (list string);
  GetValue : string -> Result string
}.

(** [Plugin]: the storage handle, [None] until [InjectQuerier] has opened
    the query stream. *)
Record Plugin : Type := mkPlugin { data : option MeshStorage }.

Definition handleDBList (p : Plugin) (q : string) : Response :=
  match data p with
  | None => http_Error "plugin not configured" StatusInternalServerError
  | Some db =>
      match List db q with
      | Err err => http_Error (Error err) StatusInternalServerError
      | Ok resp => mkResponse StatusOK (String.concat (String "010" "") resp)
      end
  end.

Section WithTrimSpace.
(** [strings.TrimSpace], of the Go standard library. *)
Variable TrimSpace : string -> string.

Definition handleDBGet (p : Plugin) (q : string) : Response :=
  match data p with
  | None => http_Error "plugin not configured" StatusInternalServerError
  | Some db =>
      if String.eqb q "" then http_Error "missing key" StatusBadRequest
      else match GetValue db q with
           | Err err => http_Error (Error err) StatusInternalServerError
           | Ok resp => mkResponse StatusOK (TrimSpace resp)
           end
  end.
End WithTrimSpace.

Definition handleDBIterPrefix (p : Plugin) (q : string) : Response :=
  match data p with
  | None => http_Error "plugin not configured" StatusInternalServerError
  | Some db => http_Error "not implemented" StatusNotImplemented
  end.

End debug.

(** ** Prefixes from text

    A reader for the textual forms the examples use: dotted-quad IPv4 and
    colon-separated hexadecimal IPv6 with at most one [::] (no zone, no
    embedded dotted quad), followed by [/] and the length.  It is one
    instance of the parser [ipam.allocateV4] and [ipam.allocateV6] are
    parametric in. *)

Module text.
Import netip.
Fixpoint split_on (c : ascii) (s : string) : list string :=
  match s with
  | EmptyString => [""]
  | String x s' =>
      if Ascii.eqb x c then "" :: split_on c s'
      else match split_on c s' with
           | h :: t => String x h :: t
           | [] => [String x ""]
           end
  end.

Definition code (c : ascii) : Z := Z.of_N (N_of_ascii c).

Definition digit (c : ascii) : option Z :=
  let n := code c in
  if (48 <=? n) && (n <=? 57) then Some (n - 48) else None.

Definition hexdigit (c : ascii) : option Z :=
  let n := code c in
  if (48 <=? n) && (n <=? 57) then Some (n - 48)
  else if (97 <=? n) && (n <=? 102) then Some (n - 87)
  else if (65 <=? n) && (n <=? 70) then Some (n - 55)
  else None.

(** The value of a non-empty run of digits in the given base. *)
Fixpoint number (base : Z) (dig : ascii -> option Z) (acc : Z) (s : string) : option Z :=
  match s with
  | EmptyString => Some acc
  | String c s' =>
      match dig c with
      | Some d => number base dig (acc * base + d) s'
      | None => None
      end
  end.

Definition leading_zero (s : string) : bool :=
  match s with
  | String "0" (String _ _) => true
  | _ => false
  end.

(** A decimal field without sign or leading zero, at most [max]. *)
Definition decimal (max : Z) (s : string) : option Z :=
  if String.eqb s "" || leading_zero s then None
  else match number 10 digit 0 s with
       | Some v => if v <=? max then Some v else None
       | None => None
       end.

(** A group of one to four hexadecimal digits. *)
Definition group (s : string) : option Z :=
  if String.eqb s "" || (4 <? Z.of_nat (String.length s)) then None
  else number 16 hexdigit 0 s.

Fixpoint all_some {A} (l : list (option A)) : option (list A) :=
  match l with
  | [] => Some []
  | Some x :: l' => match all_some l' with Some xs => Some (x :: xs) | None => None end
  | None :: _ => None
  end.

Definition join (base : Z) (fields : list Z) : Z :=
  fold_left (fun acc f => acc * base + f) fields 0.

Definition parseIPv4 (s : string) : option Addr :=
  match all_some (map (decimal 255) (split_on "." s)) with
  | Some ([_; _; _; _] as fields) => Some (IPv4 (join 256 fields))
  | _ => None
  end.

Definition groups (s : string) : option (list Z) :=
  if String.eqb s "" then Some [] else all_some (map group (split_on ":" s)).

Definition parseIPv6 (s : string) : option Addr :=
  match index 0 "::" s with
  | Some i =>
      match groups (substring 0 i s),
            groups (substring (i + 2) (String.length s - (i + 2)) s) with
      | Some l, Some r =>
          if (length l + length r <=? 7)%nat
          then Some (IPv6 (join 65536
                 (l ++ repeat 0 (8 - (length l + length r)) ++ r)%list))
          else None
      | _, _ => None
      end
  | None =>
      match groups s with
      | Some fields => if (length fields =? 8)%nat
                       then Some (IPv6 (join 65536 fields)) else None
      | None => None
      end
  end.

Definition ParseAddr (s : string) : option Addr :=
  if existsb (Ascii.eqb ":") (list_ascii_of_string s) then parseIPv6 s
  else parseIPv4 s.

(** The text before and after the last ['/'] of [s]. *)
Definition cut_last_slash (s : string) : option (string * string) :=
  match rev (split_on "/" s) with
  | [] | [_] => None
  | tl :: rest => Some (String.concat "/" (rev rest), tl)
  end.

Definition ParsePrefix (s : string) : Result Prefix :=
  match cut_last_slash s with
  | None => Err (Errorf ("netip.ParsePrefix(" ++ s ++ "): no '/'"))
  | Some (a, b) =>
      match ParseAddr a with
      | None => Err (Errorf ("netip.ParsePrefix(" ++ s ++ "): bad address"))
      | Some ip =>
          match decimal (BitLen ip) b with
          | Some bits => Ok (PrefixFrom ip bits)
          | None => Err (Errorf ("netip.ParsePrefix(" ++ s ++ "): bad bits"))
          end
      end
  end.
End text.

(** ** Concrete requests and servers *)

Module ex.

(** IPAM: a plugin with its storage handle open on an empty store and no
    static assignment; draws that give subnet id 42 first. *)
Definition plugin : ipam.Plugin := ipam.mkPlugin (ipam.mkConfig ∅ ∅) (Some ∅).

Definition ipam_env : ipam.Env := ipam.mkEnv None (fun k => 42 + Z.of_nat k).

Definition req4 : ipam.AllocateIPRequest :=
  ipam.mkAllocateIPRequest "node-a" "10.0.0.128/24" ipam.IP_VERSION_4.

Definition cidr4 : netip.Prefix := netip.mkPrefix (netip.IPv4 167772288) 24.

Definition req6 : ipam.AllocateIPRequest :=
  ipam.mkAllocateIPRequest "node-a" "fd00:dead:beef::/48" ipam.IP_VERSION_6.

Definition cidr6 : netip.Prefix :=
  netip.mkPrefix (netip.IPv6 336299199394078926620171165654279258112) 48.

(** IPAM: every /64 with subnet id 7 is statically assigned, and every
    draw is 7. *)
Definition plugin_static7 : ipam.Plugin :=
  ipam.mkPlugin (ipam.mkConfig ∅ {[ "node-b" := "fd00:dead:beef:7::/64" ]}) (Some ∅).

Definition env_always7 : ipam.Env := ipam.mkEnv None (fun _ => 7).

(** IPAM: a store whose one peer holds [10.0.0.2/32], and a plugin with
    static assignments of [10.0.0.1/32] and [10.0.0.3/32]. *)
Definition peer_a : peers.Node :=
  peers.mkNode "node-a" "pubkey-a" "" [] ""
    (netip.mkPrefix (netip.IPv4 167772162) 32) netip.PrefixZero [] 1700000000.

Definition store_a : gmap string peers.Node := {[ "node-a" := peer_a ]}.

Definition plugin_static4 : ipam.Plugin :=
  ipam.mkPlugin
    (ipam.mkConfig {[ "node-b" := "10.0.0.1/32"; "node-c" := "10.0.0.3/32" ]} ∅)
    (Some store_a).

Definition req_slash24 : ipam.AllocateIPRequest :=
  ipam.mkAllocateIPRequest "node-d" "10.0.0.0/24" ipam.IP_VERSION_4.

Definition req_slash30 : ipam.AllocateIPRequest :=
  ipam.mkAllocateIPRequest "node-d" "10.0.0.0/30" ipam.IP_VERSION_4.

(** Membership: peer [n1], which has a raft port, on a secure leader, and
    the same request on a node that is not the leader. *)
Definition n1 : peers.Node :=
  peers.mkNode "n1" "pubkey-n1" "198.51.100.7:51820" ["198.51.100.7:51820"] "zone-a"
    (netip.mkPrefix (netip.IPv4 2886729730) 32)
    (netip.mkPrefix (netip.IPv6 336299199394078926620171165654279258112) 64)
    [peers.mkFeaturePort (peers.Feature_OTHER 1) 8443;
     peers.mkFeaturePort peers.Feature_RAFT 9443]
    1700000000.

Definition server : membership.Server :=
  membership.mkServer {[ "n1" := n1 ]} [] [].

Definition empty_server : membership.Server := membership.mkServer ∅ [] [].

Definition leader : membership.Env :=
  membership.mkEnv true true true None (Some "n1") None None None (Some true).

Definition follower : membership.Env :=
  membership.mkEnv true false true None (Some "n1") None None None (Some true).

Definition outsider : membership.Env :=
  membership.mkEnv false true true None None None None None (Some true).

Definition outsider_at_follower : membership.Env :=
  membership.mkEnv false false true None None None None None (Some true).

Definition leave_nobody : membership.LeaveRequest := membership.mkLeaveRequest "".

Definition leave_n1 : membership.LeaveRequest := membership.mkLeaveRequest "n1".

Definition leave_n2 : membership.LeaveRequest := membership.mkLeaveRequest "n2".

(** Admin: an ACL with one match set and one with none; a leader with an
    authorised caller and a node that is not the leader. *)
Definition acl : admin.NetworkACL :=
  admin.mkNetworkACL "allow-web" 10 1 ["n1"] [] [] [].

Definition acl_no_sets : admin.NetworkACL :=
  admin.mkNetworkACL "allow-none" 10 1 [] [] [] [].

Definition admin_leader : admin.Env := admin.mkEnv true (true, None) None None.

Definition admin_follower : admin.Env := admin.mkEnv false (true, None) None None.

Definition admin_denied : admin.Env := admin.mkEnv true (false, None) None None.

Definition acl_no_name : admin.NetworkACL :=
  admin.mkNetworkACL "" 10 1 ["n1"] [] [] [].

Definition IsValidID (s : string) : bool := negb (String.eqb s "").

Definition ValidateACL (a : admin.NetworkACL) : option error := None.

Definition ACLAction_name : gmap Z string :=
  {[ 0 := "ACTION_UNKNOWN"; 1 := "ACTION_ACCEPT"; 2 := "ACTION_DENY" ]}.

Definition Quote (s : string) : string := String "034" (s ++ String "034" "").

End ex.

(** ** Network utilities *)

Module netutil.
Import netip.

Definition uint64 (z : Z) : Z := z mod 2 ^ 64.

(** [TimeToNTP], given [d], the nanoseconds from 1900-01-01 to the time,
    as [t.Sub] yields them. *)
Definition TimeToNTP (d : Z) : Z :=
  let nsec := uint64 d in
  let sec := nsec / 1000000000 in
  let nsec := uint64 (Z.shiftl (uint64 (nsec - uint64 (sec * 1000000000))) 32) in
  let frac := nsec / 1000000000 in
  let frac := if 1000000000 / 2 <=? nsec mod 1000000000
              then uint64 (frac + 1) else frac in
  Z.lor (uint64 (Z.shiftl sec 32)) frac.

(** [MACtoEUI64], on the bytes of the address. *)
Definition MACtoEUI64 (mac : list Z) : list Z :=
  if negb (length mac =? 6)%nat then mac
  else [Z.lor (nth 0 mac 0) 2; nth 1 mac 0; nth 2 mac 0; 255; 254;
        nth 3 mac 0; nth 4 mac 0; nth 5 mac 0].

(** [strconv.Atoi], of the Go standard library: an optional sign, then
    one or more decimal digits, the value within the 64-bit [int]. *)
Definition Atoi (s : string) : option Z :=
  let '(neg, body) :=
    match s with
    | String "+" r => (false, r)
    | String "-" r => (true, r)
    | _ => (false, s)
    end in
  match DecimalString.NilZero.uint_of_string body with
  | Some d =>
      let v := Z.of_N (N.of_uint d) in
      let v := if neg then - v else v in
      if (- 2 ^ 63 <=? v) && (v <=? 2 ^ 63 - 1) then Some v else None
  | None => None
  end.

(** [ParsePortRange]; [strings.Split(s, "-")] is [text.split_on]. *)
Definition ParsePortRange (s : string) : Result (Z * Z) :=
  let spl := text.split_on "-" s in
  if (2 <? length spl)%nat then Err (Errorf ("invalid port range: " ++ s))
  else
    match Atoi (nth 0 spl "") with
    | None => Err (Errorf ("invalid port range: " ++ s))
    | Some start =>
        if (length spl =? 2)%nat then
          match Atoi (nth 1 spl "") with
          | None => Err (Errorf ("invalid port range: " ++ s))
          | Some end_ => Ok (start, end_)
          end
        else Ok (start, start)
    end.

(** [binary.BigEndian.PutUint64] into a fresh 8-byte slice. *)
Definition PutUint64 (v : Z) : list Z :=
  map (fun i => byte_at 8 v (Z.of_nat i)) (seq 0 8).

Section WithSHA1.
(** The SHA-1 digest of the bytes written to the hash, of the Go standard
    library. *)
Variable sha1 : list Z -> list Z.

(** [GenerateULA], given the nanoseconds from 1900 to now and what
    [RandomLocalMAC] answers. *)
Definition GenerateULA (d : Z) (mac : Result (list Z)) : Result Prefix :=
  match mac with
  | Err e => Err (Errorf ("failed to get random MAC address: " ++ Error e))
  | Ok mac =>
      let sum := sha1 (app (PutUint64 (TimeToNTP d)) (MACtoEUI64 mac)) in
      let ip := app [253] (app (drop 15 sum) (app [0; 0] (repeat 0 8))) in
      let '(addr, _) := AddrFromSlice ip in
      Ok (PrefixFrom addr 48)
  end.
End WithSHA1.

(** [Random64], given the value [n] that [r.Intn(65536)] returns. *)
Definition Random64 (n : Z) (prefix : Prefix) : Result Prefix :=
  if negb (Is6 (Addr_ prefix)) then Err (Errorf "prefix must be IPv6")
  else if negb (Bits prefix =? 48) then Err (Errorf "prefix must be /48")
  else
    let ip := AsSlice (Addr_ prefix) in
    let subnet := uint16 n in
    let ip := <[6%nat := Z.shiftr subnet 8]> ip in
    let ip := <[7%nat := subnet mod 256]> ip in
    let '(addr, _) := AddrFromSlice ip in
    Ok (PrefixFrom addr 64).

Section Resolve.
(** The resolved address, and what the collaborators answer: the [k]-th
    call of [net.ResolveTCPAddr], and whether the context is done before
    the second of waiting after the [k]-th failure is over. *)
Variable A : Type.
Variable resolve : nat -> Result A.
Variable done : nat -> option error.

(** The loop of [ResolveTCPAddr]; [left] is [maxRetries - tries] and [k]
    counts the calls made.  The answer is the pair the function returns:
    the address, if one was resolved, and the error, if any. *)
Fixpoint resolve_loop (left : nat) (k : nat) : option A * option error :=
  match left with
  | O => (None, None)
  | S left' =>
      match resolve k with
      | Ok addr => (Some addr, None)
      | Err e =>
          let err := Errorf ("resolve tcp address: " ++ Error e) in
          match left' with
          | O => (None, Some err)
          | S _ =>
              match done k with
              | Some ctxErr =>
                  (None, Some (Errorf (Error err ++ ": " ++ Error ctxErr)))
              | None => resolve_loop left' (S k)
              end
          end
      end
  end.

Definition ResolveTCPAddr (maxRetries : Z) : option A * option error :=
  resolve_loop (Z.to_nat maxRetries) 0.
End Resolve.

End netutil.

(** ** Mesh state queries *)

Module state.
Import netip.

(** [netip.AddrPort] *)
Record AddrPort : Type := mkAddrPort { ip : Addr; port : Z }.

Definition AddrPort_IsValid (a : AddrPort) : bool := negb (isZero (ip a)).

Section WithNodeAddresses.
(** Methods of the peer record, which are not part of the sources. *)
Variable PublicRPCAddr : peers.Node -> AddrPort.
Variable PrivateRPCAddrV4 : peers.Node -> AddrPort.
Variable PrivateRPCAddrV6 : peers.Node -> AddrPort.

(** [ListPublicRPCAddresses], given what [ListPublicNodes] answers; [None]
    is the nil map. *)
Definition ListPublicRPCAddresses (public : Result (list peers.Node))
    : Result (option (gmap string AddrPort)) :=
  match public with
  | Err e => Err e
  | Ok nodes =>
      if (length nodes =? 0)%nat then Ok None
      else Ok (Some (foldl (fun out node =>
                        let addr := PublicRPCAddr node in
                        if AddrPort_IsValid addr
                        then <[peers.Id node := addr]> out else out)
                      ∅ nodes))
  end.

Definition ListPeerPublicRPCAddresses (public : Result (list peers.Node))
    (nodeID : string) : Result (option (gmap string AddrPort)) :=
  match ListPublicRPCAddresses public with
  | Err e => Err e
  | Ok nodes => Ok (delete nodeID <$> nodes)
  end.

Definition ListPeerPrivateRPCAddresses (fault : option string)
    (db : gmap string peers.Node) (nodeID : string)
    : Result (gmap string AddrPort) :=
  match peers.List fault db with
  | Err e => Err e
  | Ok nodes =>
      Ok (foldl (fun out node =>
                   if String.eqb (peers.Id node) nodeID then out
                   else
                     let addr := if AddrPort_IsValid (PrivateRPCAddrV4 node)
                                 then PrivateRPCAddrV4 node
                                 else PrivateRPCAddrV6 node in
                     <[peers.Id node := addr]> out)
                ∅ nodes)
  end.
End WithNodeAddresses.

End state.

(** ** The node service: GetNode *)

Module node.

Section WithConversion.
(** [dbNodeToAPINode], which is not part of the sources. *)
Variable APINode : Type.
Variable dbNodeToAPINode : peers.Node -> APINode.

Definition GetNode (fault : option string) (db : gmap string peers.Node)
    (id : string) : Result APINode :=
  match peers.Get fault db id with
  | Err err =>
      if bool_decide (err = ErrNodeNotFound) then
        Err (Status NotFound ("node " ++ id ++ " not found"))
      else Err (Status Internal ("failed to get node: " ++ Error err))
  | Ok n => Ok (dbNodeToAPINode n)
  end.
End WithConversion.

End node.

(** ** The iptables firewall *)

Module firewall.

Section WithIptables.
(** [strings.Fields], of the Go standard library, and what the [k]-th run
    of [iptables] answers: nothing when it succeeds, else the error of the
    command and its output. *)
Variable Fields : string -> list string.
Variable outcome : nat -> option (string * string).

(** [fmt.Sprintf("%v", args)] for a slice of strings. *)
Definition show_args (args : list string) : string :=
  "[" ++ String.concat " " args ++ "]".

(** [exec]: the error of the [k]-th run, if it fails. *)
Definition exec (k : nat) (args : list string) : option error :=
  match outcome k with
  | Some (err, out) =>
      Some (Errorf ("iptables " ++ show_args args ++ ": " ++ err ++ ": " ++ out))
  | None => None
  end.

(** The loop of [Clear] over the initial rules; [k] counts the runs made.
    The answer is the runs made, by their arguments and in order, and the
    error, if any. *)
Fixpoint restore (rules : list string) (k : nat)
    : list (list string) * option error :=
  match rules with
  | [] => ([], None)
  | rule :: rest =>
      if String.prefix "#" rule then restore rest k
      else
        match exec k (Fields rule) with
        | Some err => ([Fields rule], Some err)
        | None =>
            let '(runs, err) := restore rest (S k) in
            (Fields rule :: runs, err)
        end
  end.

Definition Clear (initialRules : list string) : list (list string) * option error :=
  match exec 0 ["-F"] with
  | Some err => ([["-F"]], Some err)
  | None =>
      let '(runs, err) := restore initialRules 1 in
      (["-F"] :: runs, err)
  end.

Definition Close (initialRules : list string) : list (list string) * option error :=
  Clear initialRules.
End WithIptables.

End firewall.

(** ** The debug plugin: configuration and routes *)

Module debug_server.

Record Options : Type := mkOptions {
  ListenAddress : string;
  PathPrefix : string;
  DisablePProf : bool;
  PprofProfiles : list string;
  EnableDBQuerier : bool
}.

Definition NewDefaultOptions : Options :=
  mkOptions "localhost:6060" "/debug" false [] false.

(** [Configure], given whether the configuration map is empty and what
    [mapstructure.Decode] makes of the defaults when it is not.  On
    success the answer is the options [serve] is started with. *)
Definition Configure (empty : bool) (Decode : Options -> Result Options)
    : Result Options :=
  let opts := NewDefaultOptions in
  match (if empty then Ok opts else Decode opts) with
  | Err e => Err (Errorf ("failed to decode configuration: " ++ Error e))
  | Ok opts =>
      if DisablePProf opts && negb (EnableDBQuerier opts) then
        Err (Errorf "both pprof and db querier are disabled")
      else Ok opts
  end.

(** [strings.TrimSuffix] *)
Definition TrimSuffix (s suffix : string) : string :=
  let n := String.length s in
  let m := String.length suffix in
  if (m <=? n)%nat && String.eqb (substring (n - m) m s) suffix
  then substring 0 (n - m) s else s.

(** The patterns [serve] registers handlers for, in order. *)
Definition routes (opts : Options) : list string :=
  let pathPrefix := TrimSuffix (PathPrefix opts) "/" in
  let pprof :=
    if negb (DisablePProf opts) then
      let pprofProfiles :=
        if (length (PprofProfiles opts) =? 0)%nat
        then ["goroutine"; "heap"; "allocs"; "threadcreate"; "block"; "mutex"]
        else PprofProfiles opts in
      map (fun profile => pathPrefix ++ "/pprof/" ++ profile) pprofProfiles
    else [] in
  let db :=
    if EnableDBQuerier opts then
      [pathPrefix ++ "/db/list"; pathPrefix ++ "/db/get";
       pathPrefix ++ "/db/iter-prefix"]
    else [] in
  app pprof db.

End debug_server.

(** ** Successive allocations *)

Module ipam_seq.
Import netip ipam.

(** [n] calls of [next32], each prefix handed out being recorded as
    allocated before the next call, as it is once the node that asked has
    joined; the prefixes handed out, in order, up to the first failure. *)
Fixpoint allocate_many (n : nat) (p : Plugin) (cidr : Prefix)
    (set : gset Prefix) : list Prefix :=
  match n with
  | O => []
  | S n' =>
      match next32 p cidr set with
      | Some (Ok prefix) =>
          prefix :: allocate_many n' p cidr ({[ prefix ]} ∪ set)
      | _ => []
      end
  end.

(** A plugin after [InjectQuerier] and then a series of [Configure] calls. *)
Definition reconfigured (p : Plugin) (db : gmap string peers.Node)
    (decoded : list (Result Config)) : Plugin :=
  foldl (fun p c => snd (Configure p c)) (InjectQuerier p db) decoded.

End ipam_seq.


(** ** Texts without a separator *)

Module sep.

(** [strings.ContainsRune(s, c)], for a one-byte [c]. *)
Fixpoint mentions (c : ascii) (s : string) : bool :=
  match s with
  | EmptyString => false
  | String x s' => Ascii.eqb x c || mentions c s'
  end.

End sep.

(** ** Further examples *)

Module cases.

(** IPAM: a subnet of one address. *)
Definition host4 : netip.Prefix := netip.mkPrefix (netip.IPv4 167772161) 32.

(** Admin: a leader whose storage layer refuses the write. *)
Definition admin_faulty : admin.Env :=
  admin.mkEnv true (true, None) (Some "disk full") None.

(** Debug: a decoder that disables the profiles and leaves the database
    querier disabled. *)
Definition nothing_enabled : debug_server.Options :=
  debug_server.mkOptions "localhost:6060" "/debug" true [] false.

Definition decode_nothing (opts : debug_server.Options) : Result debug_server.Options :=
  Ok nothing_enabled.

(** Debug: a store with two keys. *)
Definition two_keys : debug.MeshStorage :=
  debug.mkMeshStorage
    (fun _ => Ok ["/registry/peers/n1"; "/registry/peers/n2"])
    (fun _ => Err (Errorf "key not found")).

(** Network utilities: a time in 2026, a MAC address and a stand-in for
    the digest, which answers the bytes 1 to 20. *)
Definition year2026 : Z := 3976214400999999999.

Definition mac : list Z := [0; 17; 34; 51; 68; 85].

Definition digest (input : list Z) : list Z := map Z.of_nat (seq 1 20).

End cases.

(** * Properties *)

(** ** The text of prefixes *)

Example ex_String_v4 :
  netip.Prefix_String (netip.PrefixFrom (netip.IPv4 0x0A000081) 32) = "10.0.0.129/32".
Proof. reflexivity. Qed.

Example ex_String_v6 :
  netip.Prefix_String (netip.PrefixFrom (netip.IPv6 0xfd00deadbeef00010000000000000000) 64)
  = "fd00:dead:beef:1::/64".
Proof. vm_compute. reflexivity. Qed.

(** ** Arithmetic of address bits *)

Section Bits.
Import netip.

Lemma lxor_bound w a b :
  0 <= w -> 0 <= a < 2 ^ w -> 0 <= b < 2 ^ w -> 0 <= Z.lxor a b < 2 ^ w.
Proof.
  intros Hw Ha Hb. split.
  - apply Z.lxor_nonneg. lia.
  - destruct (Z.eq_dec (Z.lxor a b) 0) as [->|Hne]; [apply Z.pow_pos_nonneg; lia|].
    assert (0 < Z.lxor a b) by (pose proof (proj2 (Z.lxor_nonneg a b)); lia).
    apply Z.log2_lt_pow2; [lia|].
    pose proof (Z.log2_lxor a b ltac:(lia) ltac:(lia)) as Hl.
    destruct (Z.eq_dec a 0) as [->|]; destruct (Z.eq_dec b 0) as [->|].
    + rewrite Z.lxor_0_l in *. lia.
    + rewrite Z.lxor_0_l in *. apply Z.log2_lt_pow2; lia.
    + rewrite Z.lxor_0_r in *. apply Z.log2_lt_pow2; lia.
    + assert (Z.log2 a < w) by (apply Z.log2_lt_pow2; lia).
      assert (Z.log2 b < w) by (apply Z.log2_lt_pow2; lia). lia.
Qed.

Lemma shiftr_lxor_eq a b k :
  0 <= k -> Z.shiftr (Z.lxor a b) k = 0 <-> a / 2 ^ k = b / 2 ^ k.
Proof.
  intros Hk.
  rewrite Z.shiftr_lxor, Z.lxor_eq_0_iff, !Z.shiftr_div_pow2 by lia.
  reflexivity.
Qed.

(** Masking with the top [w - k] bits of a [w]-bit word tests the same
    thing as shifting the low [k] bits out. *)
Lemma land_high_mask x k w :
  0 <= k <= w -> 0 <= x < 2 ^ w ->
  Z.land x (Z.shiftl (2 ^ w - 1) k mod 2 ^ w) = 0 <-> Z.shiftr x k = 0.
Proof.
  intros Hk Hx. split; intros H; apply Z.bits_inj'; intros i Hi; rewrite Z.bits_0.
  - rewrite Z.shiftr_spec by lia.
    destruct (Z_lt_dec (i + k) w) as [Hlt|Hge].
    + assert (Hb : Z.testbit (Z.land x (Z.shiftl (2 ^ w - 1) k mod 2 ^ w)) (i + k) = false)
        by (rewrite H; apply Z.bits_0).
      rewrite Z.land_spec, Z.mod_pow2_bits_low, Z.shiftl_spec in Hb by lia.
      replace (2 ^ w - 1) with (Z.ones w) in Hb by (rewrite Z.ones_equiv; lia).
      rewrite Z.ones_spec_low in Hb by lia. rewrite andb_true_r in Hb. exact Hb.
    + destruct (Z.eq_dec x 0) as [->|Hx0]; [apply Z.bits_0|].
      apply Z.bits_above_log2; [lia|].
      assert (Z.log2 x < w) by (apply Z.log2_lt_pow2; lia). lia.
  - rewrite Z.land_spec.
    destruct (Z_lt_dec i k) as [Hlt|Hge].
    + destruct (Z_lt_dec i w).
      * rewrite Z.mod_pow2_bits_low, Z.shiftl_spec_low by lia. apply andb_false_r.
      * rewrite Z.mod_pow2_bits_high by lia. apply andb_false_r.
    + assert (Hb : Z.testbit (Z.shiftr x k) (i - k) = false) by (rewrite H; apply Z.bits_0).
      rewrite Z.shiftr_spec in Hb by lia. replace (i - k + k) with i in Hb by lia.
      rewrite Hb. reflexivity.
Qed.

Lemma div_eq_iff_block a b m :
  0 < m -> a / m = b / m <-> b / m * m <= a < b / m * m + m.
Proof.
  intros Hm. pose proof (Z.div_mod a m ltac:(lia)).
  pose proof (Z.mod_pos_bound a m Hm). split.
  - intros <-. lia.
  - intros Hr. symmetry. apply (Z.div_unique a m (b / m) (a - b / m * m)); lia.
Qed.

(** [Contains] compares the top [Bits p] bits of two addresses of one
    family. *)
Lemma Contains_iff p ip :
  wf_Prefix p -> wf_Addr ip ->
  Contains p ip = true <->
  BitLen ip = BitLen (Addr_ p) /\
  val ip / 2 ^ (BitLen (Addr_ p) - Bits p)
  = val (Addr_ p) / 2 ^ (BitLen (Addr_ p) - Bits p).
Proof.
  intros (Hwa & Hnz & Hb) Hip. unfold Contains, IsValid.
  destruct p as [pa b]; simpl in *.
  replace (0 <=? b) with true by (symmetry; apply Z.leb_le; lia). simpl.
  destruct pa as [|pa|pa], ip as [|a|a]; simpl in *; try congruence;
    try (split; [discriminate | intros [? _]; lia]).
  - rewrite Z.eqb_eq. unfold uint32.
    replace (Z.land (32 - b) 63) with (32 - b).
    2:{ change 63 with (Z.ones 6). rewrite Z.land_ones by lia.
        symmetry. apply Z.mod_small. lia. }
    pose proof (lxor_bound 32 a pa ltac:(lia) Hip Hwa) as Hx.
    rewrite Z.mod_small.
    2:{ rewrite Z.shiftr_div_pow2 by lia. split.
        - apply Z.div_pos; [lia | apply Z.pow_pos_nonneg; lia].
        - apply Z.div_lt_upper_bound; [apply Z.pow_pos_nonneg; lia|].
          assert (1 <= 2 ^ (32 - b)) by (apply (Z.pow_le_mono_r 2 0); lia). nia. }
    rewrite shiftr_lxor_eq by lia. intuition.
  - rewrite Z.eqb_eq. unfold mask6, uint128.
    pose proof (lxor_bound 128 a pa ltac:(lia) Hip Hwa) as Hx.
    rewrite land_high_mask by lia.
    rewrite shiftr_lxor_eq by lia. intuition.
Qed.

Lemma wf_same_val x y :
  BitLen x = BitLen y -> val x = val y -> x <> AddrZero -> x = y.
Proof. destruct x, y; simpl; intros; try congruence; lia. Qed.

(** [Next] is the successor, and it leaves the family only by running off
    the end of the address space. *)
Lemma Next_spec ip :
  wf_Addr ip -> ip <> AddrZero ->
  (Next ip = AddrZero /\ val ip + 1 = 2 ^ BitLen ip) \/
  (BitLen (Next ip) = BitLen ip /\ wf_Addr (Next ip) /\ val (Next ip) = val ip + 1).
Proof.
  destruct ip as [|a|a]; simpl; intros Hwf Hnz; [congruence| |].
  - unfold uint32. destruct (Z.eq_dec (a + 1) (2 ^ 32)) as [He|Hne].
    + left. rewrite He, Z.mod_same by lia. simpl. split; [reflexivity | lia].
    + right. rewrite Z.mod_small by lia.
      destruct (Z.eqb_spec (a + 1) 0); [lia|]. simpl. lia.
  - unfold uint128. destruct (Z.eq_dec (a + 1) (2 ^ 128)) as [He|Hne].
    + left. rewrite He, Z.mod_same by lia. simpl. split; [reflexivity | lia].
    + right. rewrite Z.mod_small by lia.
      destruct (Z.eqb_spec (a + 1) 0); [lia|]. simpl. lia.
Qed.

End Bits.

(** ** The reader of prefixes yields well-formed prefixes *)

Section TextParser.
Import netip text.

Lemma digit_range c d : digit c = Some d -> 0 <= d <= 9.
Proof.
  unfold digit. cbv zeta.
  destruct ((48 <=? code c) && (code c <=? 57)) eqn:H; [|discriminate].
  intros [= <-]. apply andb_true_iff in H as [H1 H2]. lia.
Qed.

Lemma hexdigit_range c d : hexdigit c = Some d -> 0 <= d <= 15.
Proof.
  unfold hexdigit. cbv zeta.
  destruct ((48 <=? code c) && (code c <=? 57)) eqn:H1;
    [intros [= <-]; apply andb_true_iff in H1; lia|].
  destruct ((97 <=? code c) && (code c <=? 102)) eqn:H2;
    [intros [= <-]; apply andb_true_iff in H2; lia|].
  destruct ((65 <=? code c) && (code c <=? 70)) eqn:H3;
    [intros [= <-]; apply andb_true_iff in H3; lia|].
  discriminate.
Qed.

(** A run of [n] digits in base [b] adds [n] digits to the accumulator. *)
Lemma number_bound b dig :
  1 < b -> (forall c d, dig c = Some d -> 0 <= d <= b - 1) ->
  forall s acc v,
    0 <= acc -> number b dig acc s = Some v ->
    0 <= v < (acc + 1) * b ^ Z.of_nat (String.length s).
Proof.
  intros Hb Hdig. induction s as [|c s IH]; intros acc v Hacc; cbn [number String.length].
  - intros [= <-]. simpl. lia.
  - destruct (dig c) as [d|] eqn:Hd; [|discriminate].
    intros Hn. pose proof (Hdig c d Hd).
    apply IH in Hn; [|nia].
    rewrite Nat2Z.inj_succ, Z.pow_succ_r by lia.
    assert (0 < b ^ Z.of_nat (String.length s)) by (apply Z.pow_pos_nonneg; lia).
    nia.
Qed.

Lemma decimal_range max s v : decimal max s = Some v -> 0 <= v <= max.
Proof.
  unfold decimal. destruct (_ || _); [discriminate|].
  destruct (number 10 digit 0 s) as [n|] eqn:Hn; [|discriminate].
  destruct (Z.leb_spec n max); [|discriminate]. intros [= <-].
  apply (number_bound 10 digit) in Hn; try lia.
  intros c d Hd. apply digit_range in Hd. lia.
Qed.

Lemma group_range s v : group s = Some v -> 0 <= v < 65536.
Proof.
  unfold group. destruct (String.eqb s ""); [discriminate|]. cbn [orb].
  destruct (Z.ltb_spec 4 (Z.of_nat (String.length s))); [discriminate|].
  intros Hn. apply (number_bound 16 hexdigit) in Hn; try lia.
  - assert (16 ^ Z.of_nat (String.length s) <= 16 ^ 4)
      by (apply Z.pow_le_mono_r; lia). lia.
  - intros c d Hd. apply hexdigit_range in Hd. lia.
Qed.

Lemma all_some_Forall {A} (P : A -> Prop) (f : string -> option A) :
  (forall s v, f s = Some v -> P v) ->
  forall l vs, all_some (map f l) = Some vs -> Forall P vs.
Proof.
  intros Hf. induction l as [|x l IH]; intros vs; simpl.
  - intros [= <-]. constructor.
  - destruct (f x) as [v|] eqn:Hx; [|discriminate].
    destruct (all_some (map f l)) as [vs'|]; [|discriminate].
    intros [= <-]. constructor; [now apply (Hf x) | now apply IH].
Qed.

(** Fields below the base, joined, stay below the base to the power of
    their number. *)
Lemma join_bound b :
  1 < b -> forall fields acc,
    0 <= acc -> Forall (fun f => 0 <= f < b) fields ->
    0 <= fold_left (fun acc f => acc * b + f) fields acc
      < (acc + 1) * b ^ Z.of_nat (length fields).
Proof.
  intros Hb. induction fields as [|f fields IH]; intros acc Hacc Hall;
    cbn [fold_left length].
  - simpl. lia.
  - inversion Hall as [|? ? Hf Hrest]; subst.
    specialize (IH (acc * b + f) ltac:(nia) Hrest).
    rewrite Nat2Z.inj_succ, Z.pow_succ_r by lia.
    assert (0 < b ^ Z.of_nat (length fields)) by (apply Z.pow_pos_nonneg; lia).
    nia.
Qed.

Lemma parseIPv4_wf s ip : parseIPv4 s = Some ip -> wf_Addr ip /\ ip <> AddrZero.
Proof.
  unfold parseIPv4.
  destruct (all_some (map (decimal 255) (split_on "." s))) as [fields|] eqn:Hf;
    [|discriminate].
  apply (all_some_Forall (fun v => 0 <= v < 256)) in Hf.
  2:{ intros x v Hv. apply decimal_range in Hv. lia. }
  destruct fields as [|a [|b [|c [|d [|]]]]]; try discriminate.
  intros Hip. injection Hip as <-. split; [|intros Hz; discriminate Hz].
  pose proof (join_bound 256 ltac:(lia) [a; b; c; d] 0 ltac:(lia) Hf) as Hj.
  unfold wf_Addr, join. cbn [length fold_left] in Hj |- *.
  change (Z.of_nat 4) with 4 in Hj. lia.
Qed.

Lemma groups_range s fields :
  groups s = Some fields -> Forall (fun f => 0 <= f < 65536) fields.
Proof.
  unfold groups. destruct (String.eqb s ""); [intros [= <-]; constructor|].
  apply all_some_Forall. exact group_range.
Qed.

Lemma join8_wf fields :
  length fields = 8%nat -> Forall (fun f => 0 <= f < 65536) fields ->
  wf_Addr (IPv6 (join 65536 fields)).
Proof.
  intros Hlen Hall.
  pose proof (join_bound 65536 ltac:(lia) fields 0 ltac:(lia) Hall) as Hj.
  rewrite Hlen in Hj. unfold wf_Addr, join.
  change (2 ^ 128) with ((0 + 1) * 65536 ^ Z.of_nat 8). exact Hj.
Qed.

Lemma parseIPv6_wf s ip : parseIPv6 s = Some ip -> wf_Addr ip /\ ip <> AddrZero.
Proof.
  unfold parseIPv6. destruct (index 0 "::" s) as [i|].
  - destruct (groups (substring 0 i s)) as [l|] eqn:Hl; [|discriminate].
    destruct (groups (substring (i + 2) _ s)) as [r|] eqn:Hr; [|discriminate].
    destruct (Nat.leb_spec (length l + length r) 7); [|discriminate].
    intros [= <-]. split; [|intros Hz; discriminate Hz].
    apply groups_range in Hl, Hr. apply join8_wf.
    + rewrite !length_app, repeat_length. lia.
    + apply Forall_app. split; [exact Hl|]. apply Forall_app. split; [|exact Hr].
      apply Forall_forall. intros x Hx.
      apply list_elem_of_In, repeat_spec in Hx. subst. lia.
  - destruct (groups s) as [fields|] eqn:Hf; [|discriminate].
    destruct (Nat.eqb_spec (length fields) 8); [|discriminate].
    intros [= <-]. split; [|intros Hz; discriminate Hz].
    apply join8_wf; [assumption | now apply (groups_range s)].
Qed.

(** Every prefix the reader yields is well formed. *)
Lemma ParsePrefix_wf s prefix : ParsePrefix s = Ok prefix -> wf_Prefix prefix.
Proof.
  unfold ParsePrefix. destruct (cut_last_slash s) as [[a b]|]; [|discriminate].
  destruct (ParseAddr a) as [ip|] eqn:Hip; [|discriminate].
  destruct (decimal (BitLen ip) b) as [bits|] eqn:Hb; [|discriminate].
  intros [= <-]. apply decimal_range in Hb.
  assert (Hwf : wf_Addr ip /\ ip <> AddrZero).
  { unfold ParseAddr in Hip. destruct (existsb _ _);
      [now apply parseIPv6_wf in Hip | now apply parseIPv4_wf in Hip]. }
  destruct Hwf as [Hw Hnz]. unfold PrefixFrom.
  replace (negb (isZero ip) && (0 <=? bits) && (bits <=? BitLen ip)) with true.
  - unfold wf_Prefix. simpl. tauto.
  - symmetry. rewrite !andb_true_iff. repeat split; try (apply Z.leb_le; lia).
    destruct ip; [congruence | reflexivity | reflexivity].
Qed.

End TextParser.

(** ** IPv4 allocation: the scan of [next32] *)

Section Next32.
Import netip ipam.
Variables (p : Plugin) (cidr : Prefix) (set : gset Prefix).
Hypothesis Hwf : wf_Prefix cidr.

Local Abbreviation L := (BitLen (Addr_ cidr)).
Local Abbreviation K := (2 ^ (L - Bits cidr)).
Local Abbreviation lo := (val (Addr_ cidr) / K * K).
Local Abbreviation hi := (lo + K).

Lemma K_pos : 0 < K.
Proof. destruct Hwf as (_ & _ & ?). apply Z.pow_pos_nonneg; lia. Qed.

Lemma L_pos : 0 < L.
Proof.
  destruct Hwf as (_ & Hnz & _).
  destruct (Addr_ cidr); simpl; try lia. congruence.
Qed.

Lemma wf_lt ip : wf_Addr ip -> BitLen ip = L -> 0 <= val ip < 2 ^ L.
Proof. pose proof L_pos. destruct ip; simpl; intros ? <-; simpl; lia. Qed.

(** The addresses of [cidr] are one block of [K] consecutive numbers. *)
Lemma Contains_block ip :
  wf_Addr ip -> BitLen ip = L -> Contains cidr ip = true <-> lo <= val ip < hi.
Proof.
  intros Hip HL. rewrite Contains_iff by assumption.
  rewrite div_eq_iff_block by apply K_pos. intuition.
Qed.

Lemma Contains_BitLen ip : wf_Addr ip -> Contains cidr ip = true -> BitLen ip = L.
Proof. intros Hip H. apply Contains_iff in H; tauto. Qed.

Lemma next32_loop_spec fuel : forall ip,
  wf_Addr ip -> ip = AddrZero \/ BitLen ip = L -> lo <= pos L ip ->
  hi - pos L ip < Z.of_nat fuel -> (0 < fuel)%nat ->
  exists r, next32_loop fuel p cidr set ip = Some r /\ loop_post p cidr set ip r.
Proof.
  pose proof K_pos as HK. pose proof L_pos as HL.
  induction fuel as [|fuel IH]; intros ip Hip Hfam Hlo Hfuel Hpos; [lia|].
  simpl. destruct (Contains cidr ip) eqn:HC.
  - pose proof (Contains_BitLen ip Hip HC) as HLip.
    assert (Hnz : ip <> AddrZero) by (intros ->; simpl in HLip; lia).
    assert (Hp : pos L ip = val ip) by (unfold pos; destruct ip; simpl; congruence).
    pose proof (proj1 (Contains_block ip Hip HLip) HC) as Hblk.
    destruct (free p set (PrefixFrom ip 32)) eqn:Hfree.
    + eexists; split; [reflexivity|]. exists ip.
      split; [reflexivity|]. split; [assumption|]. split; [assumption|].
      split; [assumption|]. split; [lia|]. split; [assumption|].
      intros ip' _ _ ?. lia.
    + assert (Hn : wf_Addr (Next ip) /\ (Next ip = AddrZero \/ BitLen (Next ip) = L)
                   /\ pos L (Next ip) = pos L ip + 1).
      { destruct (Next_spec ip Hip Hnz) as [[Hz Hv]|(Hb & Hw & Hv)].
        - rewrite Hz. split; [exact I|]. split; [now left|]. unfold pos at 1. simpl.
          rewrite Hp. rewrite HLip in Hv. lia.
        - split; [assumption|]. split; [right; congruence|].
          unfold pos at 1. destruct (Next ip); simpl in *; try lia; rewrite Hp; lia. }
      destruct Hn as (Hw & Hf & Hv).
      destruct (IH (Next ip) Hw Hf ltac:(lia) ltac:(lia) ltac:(lia)) as (r & Hr & Hpost).
      exists r. split; [exact Hr|].
      destruct r as [prefix|e]; simpl in *.
      * destruct Hpost as (ip1 & -> & Hw1 & HL1 & HC1 & Hle & Hfr & Hall).
        exists ip1.
        split; [reflexivity|]. split; [assumption|]. split; [assumption|].
        split; [assumption|]. split; [lia|]. split; [assumption|].
        intros ip' Hw' HL' Hrange.
        destruct (Z.eq_dec (val ip') (val ip)) as [He|Hne].
        -- assert (ip' = ip) as ->; [|exact Hfree].
           apply wf_same_val; [congruence | assumption |].
           intros ->; simpl in HL'; lia.
        -- apply Hall; try assumption. lia.
      * destruct Hpost as (-> & Hall). split; [reflexivity|].
        intros ip' Hw' HL' Hrange HC'.
        destruct (Z.eq_dec (val ip') (val ip)) as [He|Hne].
        -- assert (ip' = ip) as ->; [|exact Hfree].
           apply wf_same_val; [congruence | assumption |].
           intros ->; simpl in HL'; lia.
        -- apply Hall; try assumption. lia.
  - eexists; split; [reflexivity|]. split; [reflexivity|].
    intros ip' Hw' HL' Hrange HC'. exfalso.
    pose proof (proj1 (Contains_block ip' Hw' HL') HC') as Hblk.
    pose proof (wf_lt ip' Hw' HL').
    destruct Hfam as [->|HLip].
    + unfold pos in Hrange. simpl in Hrange. lia.
    + assert (Hp : pos L ip = val ip).
      { unfold pos; destruct ip; simpl in *; try reflexivity. lia. }
      assert (~ (lo <= val ip < hi)).
      { intros Hc. apply (Contains_block ip Hip HLip) in Hc. congruence. }
      lia.
Qed.

(** [next32] always returns: the fuel of the model is never used up.  It
    returns the first free candidate after the address of [cidr] that is
    still inside [cidr], or the exhaustion error when every address of
    [cidr] after that one is taken. *)
Lemma next32_spec :
  exists r, next32 p cidr set = Some r /\
    match r with
    | Ok prefix =>
        exists ip, prefix = PrefixFrom ip 32 /\ wf_Addr ip /\
          Contains cidr ip = true /\ after (Addr_ cidr) ip /\
          free p set prefix = true /\
          forall ip', wf_Addr ip' -> after (Addr_ cidr) ip' -> after ip' ip ->
                      taken p set ip'
    | Err e =>
        e = Errorf ("no more addresses in " ++ Prefix_String cidr) /\
        forall ip', wf_Addr ip' -> after (Addr_ cidr) ip' ->
                    Contains cidr ip' = true -> taken p set ip'
    end.
Proof.
  pose proof K_pos as HK. pose proof L_pos as HL.
  destruct Hwf as (Hwa & Hnz & Hb).
  pose proof (wf_lt (Addr_ cidr) Hwa eq_refl) as Hv.
  assert (Hlo : lo <= val (Addr_ cidr) < hi).
  { pose proof (Z.div_mod (val (Addr_ cidr)) K ltac:(lia)).
    pose proof (Z.mod_pos_bound (val (Addr_ cidr)) K HK). lia. }
  assert (Hn : wf_Addr (Next (Addr_ cidr))
               /\ (Next (Addr_ cidr) = AddrZero \/ BitLen (Next (Addr_ cidr)) = L)
               /\ pos L (Next (Addr_ cidr)) = val (Addr_ cidr) + 1).
  { destruct (Next_spec (Addr_ cidr) Hwa Hnz) as [[Hz Hv']|(Hb' & Hw & Hv')].
    - rewrite Hz. split; [exact I|]. split; [now left|]. unfold pos. simpl.
      lia.
    - split; [assumption|]. split; [right; assumption|].
      unfold pos. destruct (Next (Addr_ cidr)); simpl in *; try lia. }
  destruct Hn as (Hw0 & Hf0 & Hp0).
  destruct (next32_loop_spec (next32_fuel cidr) (Next (Addr_ cidr)) Hw0 Hf0)
    as (r & Hr & Hpost).
  - lia.
  - unfold next32_fuel. rewrite Nat2Z.inj_succ, Z2Nat.id by lia. lia.
  - unfold next32_fuel. lia.
  - exists r. split; [exact Hr|]. destruct r as [prefix|e]; simpl in Hpost.
    + destruct Hpost as (ip1 & -> & Hw1 & HL1 & HC1 & Hle & Hfr & Hall).
      exists ip1. split; [reflexivity|]. split; [assumption|]. split; [assumption|].
      split; [split; [symmetry; exact HL1 | lia]|]. split; [assumption|].
      intros ip' Hw' [Hfam Hgt] [_ Hlt]. apply Hall; [assumption | congruence | lia].
    + destruct Hpost as (-> & Hall). split; [reflexivity|].
      intros ip' Hw' [Hfam Hgt] HC'. apply Hall; [assumption | congruence | lia | assumption].
Qed.

End Next32.

(** ** IPv4 allocation: [allocateV4] *)

Section AllocateV4.
Import netip ipam.







Variable ParsePrefix : string -> Result Prefix.


End AllocateV4.


(** ** IPv6 allocation: [random64] and [allocateV6] *)

Section Random64.
Import netip ipam.

(** The bytes of a number, one division at a time. *)
Lemma byte_step a k m m' :
  m = 2 ^ (8 * k) -> m' = 256 * m -> 0 <= k ->
  Z.shiftr a (8 * k) mod 256 = a / m - 256 * (a / m').
Proof.
  intros -> -> Hk. rewrite Z.shiftr_div_pow2 by lia.
  assert (0 < 2 ^ (8 * k)) by (apply Z.pow_pos_nonneg; lia).
  rewrite (Z.mul_comm 256 (2 ^ (8 * k))), <- Z.div_div by lia.
  pose proof (Z.div_mod (a / 2 ^ (8 * k)) 256 ltac:(lia)). lia.
Qed.

Lemma uint16_bytes s : 0 <= s < 2 ^ 16 -> Z.shiftr s 8 * 256 + s mod 256 = s.
Proof.
  intros Hs. rewrite Z.shiftr_div_pow2 by lia. change (2 ^ 8) with 256.
  pose proof (Z.div_mod s 256 ltac:(lia)). lia.
Qed.

Lemma uint16_range n : 0 <= uint16 n < 2 ^ 16.
Proof. unfold uint16. apply Z.mod_pos_bound. lia. Qed.

Ltac byte_fact a k :=
  let m := eval vm_compute in (2 ^ (8 * k)) in
  let m' := eval vm_compute in (256 * m) in
  pose proof (byte_step a k m m' eq_refl eq_refl ltac:(lia)).

Ltac literal_shifts :=
  repeat match goal with
    | |- context [16 - 1 - Z.of_nat ?i] =>
        let v := eval vm_compute in (16 - 1 - Z.of_nat i) in
        change (16 - 1 - Z.of_nat i) with v
    end.

Ltac literal_pow e :=
  let v := eval vm_compute in (2 ^ e) in change (2 ^ e) with v in *.

(** The byte surgery of [random64] builds the address the specification
    describes. *)
Lemma random64_value a n :
  0 <= a < 2 ^ 128 ->
  from_bytes (<[7%nat := uint16 n mod 256]>
                (<[6%nat := Z.shiftr (uint16 n) 8]> (AsSlice (IPv6 a))))
  = with_subnet a (uint16 n).
Proof.
  intros Ha. pose proof (uint16_range n) as Hs.
  pose proof (uint16_bytes (uint16 n) Hs) as Hsb.
  unfold with_subnet, from_bytes, AsSlice, byte_at.
  cbn [seq map list_insert fold_left insert]. literal_shifts.
  byte_fact a 0. byte_fact a 1. byte_fact a 2. byte_fact a 3.
  byte_fact a 4. byte_fact a 5. byte_fact a 6. byte_fact a 7.
  byte_fact a 10. byte_fact a 11. byte_fact a 12. byte_fact a 13.
  byte_fact a 14. byte_fact a 15.
  assert (Hq16 : a / 340282366920938463463374607431768211456 = 0)
    by (apply Z.div_small; exact Ha).
  rewrite Z.div_1_r in *.
  rewrite (Z.mod_eq a (2 ^ 64)) by lia.
  literal_pow 80. literal_pow 64. literal_pow 16.
  lia.
Qed.

Lemma with_subnet_spec a s :
  0 <= a < 2 ^ 128 -> 0 <= s < 2 ^ 16 ->
  0 <= with_subnet a s < 2 ^ 128 /\
  with_subnet a s / 2 ^ 80 = a / 2 ^ 80 /\
  with_subnet a s / 2 ^ 64 mod 2 ^ 16 = s /\
  with_subnet a s mod 2 ^ 64 = a mod 2 ^ 64.
Proof.
  intros Ha Hs. unfold with_subnet.
  pose proof (Z.mod_pos_bound a (2 ^ 64) ltac:(lia)) as Hlo.
  assert (Hhi : 0 <= a / 2 ^ 80 < 2 ^ 48).
  { split; [apply Z.div_pos; lia|]. apply Z.div_lt_upper_bound; lia. }
  set (h := a / 2 ^ 80) in *. set (l := a mod 2 ^ 64) in *.
  assert (E1 : (h * 2 ^ 80 + s * 2 ^ 64 + l) / 2 ^ 64 = h * 2 ^ 16 + s).
  { symmetry. apply (Z.div_unique _ _ _ l); lia. }
  repeat split.
  - lia.
  - lia.
  - symmetry. apply (Z.div_unique _ _ _ (s * 2 ^ 64 + l)); lia.
  - rewrite E1. symmetry. apply (Z.mod_unique _ _ h); lia.
  - symmetry. apply (Z.mod_unique _ _ (h * 2 ^ 16 + s)); lia.
Qed.

(** [random64] on an IPv6 /48: the /64 with the drawn subnet id. *)
Lemma random64_ok n a env k :
  0 <= a < 2 ^ 128 -> n = Intn65536 env k ->
  random64 n (mkPrefix (IPv6 a) 48) = Ok (candidate env a k).
Proof.
  intros Ha ->. unfold random64, candidate. cbn [Addr_ Bits Is6 negb Z.eqb Pos.eqb].
  unfold AddrFromSlice. rewrite !length_insert.
  replace (length (AsSlice (IPv6 a))) with 16%nat by reflexivity. cbv beta iota.
  rewrite random64_value by assumption.
  reflexivity.
Qed.

(** [random64] refuses every prefix that is not an IPv6 /48. *)
Lemma random64_err n prefix :
  Is6 (Addr_ prefix) = false \/ Bits prefix <> 48 ->
  exists msg, random64 n prefix = Err (Errorf msg).
Proof.
  unfold random64. intros [H6|Hb].
  - rewrite H6. eexists; reflexivity.
  - destruct (Is6 (Addr_ prefix)); [|eexists; reflexivity]. simpl.
    destruct (Z.eqb_spec (Bits prefix) 48); [contradiction|]. eexists; reflexivity.
Qed.

End Random64.

Section AllocateV6.
Import netip ipam.




Variable ParsePrefix : string -> Result Prefix.


(** [Allocate], once the storage handle is there and the node has no
    static assignment, is [allocateV4] or [allocateV6] by the version asked
    for; a static assignment is answered as it is written. *)
Lemma Allocate_without_static p db env r :
  data p = Some db ->
  (Version r = IP_VERSION_4 -> StaticIPv4 (config p) !! NodeId r = None ->
   Allocate ParsePrefix p env r = allocateV4 ParsePrefix p db env r)
  /\
  (Version r = IP_VERSION_6 -> StaticIPv6 (config p) !! NodeId r = None ->
   Allocate ParsePrefix p env r = Some (allocateV6 ParsePrefix p db env r)).
Proof.
  intros Hd. unfold Allocate. rewrite Hd.
  split; intros -> ->; reflexivity.
Qed.

End AllocateV6.

(** ** Membership: [Leave] *)

Section Leave.
Import membership.

Ltac run_leave :=
  cbv beta iota zeta delta
    [Leave bind ret fail defer peers_Get peers_Delete raft_RemoveServer
     raft_Barrier issue go notify peers.Get peers.Delete of_fault].

Lemma eqb_empty_false (id : string) : id <> "" -> String.eqb id "" = false.
Proof. intros H. now apply String.eqb_neq. Qed.

(** C6, as amended.  The three checks at the head of [Leave] come in this
    order, the first that fails decides the error, and nothing has been
    issued or changed by then: out of network is [PermissionDenied]; in
    network with an empty id is [InvalidArgument]; in network, with an id,
    on a node that is not the leader is [FailedPrecondition]. *)
Theorem Leave_preconditions env req s :
  (IsInNetwork env = false ->
   Leave env req s = (Err (Status PermissionDenied "request is not in-network"), s))
  /\
  (IsInNetwork env = true -> Id req = "" ->
   Leave env req s = (Err (Status InvalidArgument "id is required"), s))
  /\
  (IsInNetwork env = true -> Id req <> "" -> IsLeader env = false ->
   Leave env req s = (Err (Status FailedPrecondition "not leader"), s)).
Proof.
  unfold Leave, fail. repeat split.
  - intros ->. reflexivity.
  - intros -> ->. reflexivity.
  - intros -> Hid ->. rewrite (eqb_empty_false _ Hid). reflexivity.
Qed.

(** The identity check, for a request that has reached it. *)
Lemma Leave_identity_check env req s caller :
  IsInNetwork env = true -> Id req <> "" -> IsLeader env = true ->
  IsSecure env = true -> caller_identity env = Some caller -> caller <> Id req ->
  code_of (fst (Leave env req s)) = PermissionDenied /\ snd (Leave env req s) = s.
Proof.
  intros Hn Hid Hl Hs Hc Hne. run_leave.
  rewrite Hn, (eqb_empty_false _ Hid), Hl, Hs. cbn [negb].
  unfold caller_identity in Hc.
  destruct (ProxiedFor env) as [pf|].
  - injection Hc as ->.
    rewrite (proj2 (String.eqb_neq caller (Id req)) Hne). split; reflexivity.
  - rewrite Hc. rewrite (proj2 (String.eqb_neq caller (Id req)) Hne). split; reflexivity.
Qed.

(** C4, as amended.  With security enabled and a verified caller identity
    that differs from the non-empty target id, [Leave] changes nothing and
    fails: with [PermissionDenied], except for a request from inside the
    network to a node that is not the leader, which the leader check
    answers first, with [FailedPrecondition]. *)
Theorem Leave_identity_mismatch env req s caller :
  IsSecure env = true -> caller_identity env = Some caller ->
  Id req <> "" -> caller <> Id req ->
  code_of (fst (Leave env req s))
  = (if IsInNetwork env && negb (IsLeader env)
     then FailedPrecondition else PermissionDenied)
  /\ snd (Leave env req s) = s.
Proof.
  intros Hs Hc Hid Hne.
  destruct (Leave_preconditions env req s) as (H1 & _ & H3).
  destruct (IsInNetwork env) eqn:Hn.
  - destruct (IsLeader env) eqn:Hl.
    + exact (Leave_identity_check env req s caller Hn Hid Hl Hs Hc Hne).
    + rewrite (H3 eq_refl Hid eq_refl). split; reflexivity.
  - rewrite (H1 eq_refl). split; reflexivity.
Qed.

(** A request that passes the checks gets to the lookup. *)
Lemma Leave_after_checks env req s :
  passes_checks env req ->
  Leave env req s =
  bind (peers_Get env (Id req)) (fun got =>
    match got with
    | Err err =>
        if bool_decide (err = ErrNodeNotFound) then ret mkLeaveResponse
        else fail (Status Internal ("failed to get peer: " ++ Error err))
    | Ok leaving =>
        let remove_record : M LeaveResponse :=
          bind (peers_Delete env (Id req)) (fun deleted =>
          match deleted with
          | Err err =>
              fail (Status Internal ("failed to delete peer: " ++ Error err))
          | Ok _ =>
              bind (go (notify env leaving)) (fun _ => ret mkLeaveResponse)
          end) in
        if negb (peers.PortFor leaving peers.Feature_RAFT =? 0) then
          defer (raft_Barrier env (Second * 15))
            (bind (raft_RemoveServer env (Id req) false) (fun removed =>
             match removed with
             | Err err =>
                 fail (Status Internal
                         ("failed to remove raft member: " ++ Error err))
             | Ok _ => remove_record
             end))
        else remove_record
    end) s.
Proof.
  intros (Hn & Hid & Hl & Hauth). unfold Leave.
  rewrite Hn, (eqb_empty_false _ Hid), Hl. cbn [negb].
  destruct (IsSecure env).
  - specialize (Hauth eq_refl). unfold caller_identity in Hauth.
    destruct (ProxiedFor env) as [pf|].
    + injection Hauth as ->. rewrite String.eqb_refl. reflexivity.
    + rewrite Hauth, String.eqb_refl. reflexivity.
  - reflexivity.
Qed.

(** After a [Leave] that succeeded the target is not in the store. *)
Lemma Leave_ok_absent env req s :
  is_Ok (fst (Leave env req s)) = true ->
  storage (snd (Leave env req s)) !! Id req = None.
Proof.
  run_leave.
  destruct (IsInNetwork env); [|discriminate]. cbn [negb].
  destruct (String.eqb (Id req) ""); [discriminate|].
  destruct (IsLeader env); [|discriminate]. cbn [negb].
  destruct (IsSecure env);
    [destruct (ProxiedFor env) as [pf|];
       [destruct (String.eqb pf (Id req)); [|discriminate]
       |destruct (AuthenticatedCaller env) as [pe|];
          [destruct (String.eqb pe (Id req)); [|discriminate]|discriminate]]|];
    cbn [negb];
    (destruct (get_fault env); [discriminate|];
     destruct (storage s !! Id req) as [leaving|] eqn:Hl; [|intros _; exact Hl];
     destruct (peers.PortFor leaving peers.Feature_RAFT =? 0); cbn [negb];
     destruct (remove_fault env); cbn; try discriminate;
     destruct (delete_fault env); cbn; try discriminate;
     destruct (plugins env) as [[|]|]; cbn; intros _; apply lookup_delete_eq).
Qed.

(** C5, as amended.  For a request that passes the checks, whose lookup
    the storage layer answers, and whose target is not in the store,
    [Leave] succeeds and changes nothing; and a [Leave] that succeeded
    leaves a store in which the target is absent, so that a second such
    request succeeds again and changes nothing. *)
Theorem Leave_absent_peer env req s :
  passes_checks env req -> get_fault env = None ->
  (storage s !! Id req = None ->
   Leave env req s = (Ok mkLeaveResponse, s))
  /\
  (forall env0 s0,
     s = snd (Leave env0 req s0) -> is_Ok (fst (Leave env0 req s0)) = true ->
     Leave env req s = (Ok mkLeaveResponse, s)).
Proof.
  intros Hadm Hget.
  assert (Habs : storage s !! Id req = None -> Leave env req s = (Ok mkLeaveResponse, s)).
  { intros Hnone. rewrite (Leave_after_checks _ _ _ Hadm).
    unfold bind, peers_Get, peers.Get, ret. rewrite Hget, Hnone. reflexivity. }
  split; [exact Habs|].
  intros env0 s0 -> Hok. apply Habs. now apply Leave_ok_absent.
Qed.

(** What a request that passes the checks does for a peer of the store, by the outcome
    of [RemoveServer] and of the delete.  [raft] tells whether the peer
    has a raft port. *)
Lemma Leave_existing env req s leaving :
  passes_checks env req -> get_fault env = None ->
  storage s !! Id req = Some leaving ->
  let raft := negb (peers.PortFor leaving peers.Feature_RAFT =? 0) in
  let pre := if raft then [RaftRemoveServer (Id req) false] else [] in
  let post := if raft then [RaftBarrier (Second * 15)] else [] in
  Leave env req s =
  match (if raft then remove_fault env else None), delete_fault env with
  | Some msg, _ =>
      (Err (Status Internal ("failed to remove raft member: " ++ msg)),
       mkServer (storage s) (trace s ++ pre ++ post) (emitted s))
  | None, Some msg =>
      (Err (Status Internal ("failed to delete peer: " ++ msg)),
       mkServer (storage s) (trace s ++ pre ++ [PeersDelete (Id req)] ++ post)
                (emitted s))
  | None, None =>
      (Ok mkLeaveResponse,
       snd (notify env leaving
              (mkServer (delete (Id req) (storage s))
                        (trace s ++ pre ++ [PeersDelete (Id req)] ++ post)
                        (emitted s))))
  end.
Proof.
  intros Hadm Hget Hl. cbv zeta. rewrite (Leave_after_checks _ _ _ Hadm).
  cbv beta iota zeta delta
    [bind ret fail defer peers_Get peers_Delete raft_RemoveServer
     raft_Barrier issue go peers.Get peers.Delete of_fault].
  rewrite Hget, Hl.
  destruct (negb (peers.PortFor leaving peers.Feature_RAFT =? 0));
    destruct (remove_fault env); destruct (delete_fault env);
    cbn [storage trace emitted Error fst snd];
    unfold notify; destruct (plugins env) as [[|]|];
    cbn [storage trace emitted fst snd app];
    rewrite <- ?app_assoc; reflexivity.
Qed.

(** C1, as amended.  For a request that passes the checks and whose
    target is in the store and has a raft port, [Leave] issues
    [RemoveServer] first; when that
    succeeds it issues the delete of the record next; and the barrier, of
    15 seconds, is deferred: it is issued last, when the handler returns,
    after the delete (or after the failed [RemoveServer]).  In no run of
    [Leave] is a delete issued before a [RemoveServer]. *)
Theorem Leave_raft_order env req s leaving :
  passes_checks env req -> get_fault env = None ->
  storage s !! Id req = Some leaving ->
  peers.PortFor leaving peers.Feature_RAFT <> 0 ->
  trace (snd (Leave env req s))
  = (trace s ++
     match remove_fault env with
     | Some _ => [RaftRemoveServer (Id req) false; RaftBarrier (Second * 15)]
     | None => [RaftRemoveServer (Id req) false; PeersDelete (Id req);
                RaftBarrier (Second * 15)]
     end)%list
  /\
  forall env' req' s' id1 id2 w,
    ~ precedes (PeersDelete id1) (RaftRemoveServer id2 w)
        (drop (length (trace s')) (trace (snd (Leave env' req' s')))).
Proof.
  intros Hadm Hget Hl Hport. split.
  - rewrite (Leave_existing _ _ _ _ Hadm Hget Hl). cbv zeta.
    destruct (Z.eqb_spec (peers.PortFor leaving peers.Feature_RAFT) 0) as [|_];
      [contradiction|]. cbn [negb].
    destruct (remove_fault env); [reflexivity|].
    destruct (delete_fault env); [reflexivity|].
    unfold notify. destruct (plugins env) as [[|]|]; reflexivity.
  - clear. intros env' req' s' id1 id2 w (i & j & Hi & Hj & Hij).
    revert Hi Hj. run_leave.
    destruct (IsInNetwork env'); cbn [negb fst snd trace];
      [|rewrite drop_all; intros Hi; destruct i; discriminate Hi].
    destruct (String.eqb (Id req') ""); cbn [negb fst snd trace];
      [rewrite drop_all; intros Hi; destruct i; discriminate Hi|].
    destruct (IsLeader env'); cbn [negb fst snd trace];
      [|rewrite drop_all; intros Hi; destruct i; discriminate Hi].
    destruct (IsSecure env');
      [destruct (ProxiedFor env') as [pf|];
         [destruct (String.eqb pf (Id req'))
         |destruct (AuthenticatedCaller env') as [pe|];
            [destruct (String.eqb pe (Id req'))|]]|];
      cbn [negb fst snd trace];
      try (rewrite drop_all; intros Hi; destruct i; discriminate Hi);
      (destruct (get_fault env'); cbn [fst snd trace];
       [rewrite drop_all; intros Hi; destruct i; discriminate Hi|];
       destruct (storage s' !! Id req') as [lv|]; cbn [fst snd trace];
       [|rewrite drop_all; intros Hi; destruct i; discriminate Hi];
       destruct (peers.PortFor lv peers.Feature_RAFT =? 0); cbn [negb];
       destruct (remove_fault env'); cbn [fst snd trace storage emitted];
       destruct (delete_fault env'); cbn [fst snd trace storage emitted];
       try (destruct (plugins env') as [[|]|]; cbn [fst snd trace storage emitted]);
       rewrite <- ?app_assoc, drop_app_length; cbn [app];
       intros Hi Hj;
       destruct i as [|[|[|i]]]; try discriminate Hi;
       destruct j as [|[|[|j]]]; try discriminate Hj; lia).
Qed.

(** C10.  A [Leave] that succeeds for a peer of the store, with a plugin
    manager that has watchers, hands the plugins exactly one event: of type
    [NODE_JOIN], carrying the record of the peer as it was read before the
    delete (id, endpoints, zone-awareness tag, public key, the text of the
    private IPv4 and IPv6 prefixes, features and join timestamp); and the
    record is gone from the store. *)
Theorem Leave_emits_node_join env req s leaving :
  is_Ok (fst (Leave env req s)) = true ->
  storage s !! Id req = Some leaving ->
  plugins env = Some true ->
  emitted (snd (Leave env req s))
  = (emitted s ++
    [mkEvent Event_NODE_JOIN
       (mkMeshNode (peers.Id leaving)
                   (peers.PrimaryEndpoint leaving)
                   (peers.WireguardEndpoints leaving)
                   (peers.ZoneAwarenessId leaving)
                   (peers.PublicKey leaving)
                   (netip.Prefix_String (peers.PrivateIPv4 leaving))
                   (netip.Prefix_String (peers.PrivateIPv6 leaving))
                   (peers.Features leaving)
                   (peers.JoinedAt leaving))])%list
  /\ storage (snd (Leave env req s)) !! Id req = None.
Proof.
  intros Hok Hl Hp. split; [|now apply Leave_ok_absent].
  revert Hok. run_leave.
  destruct (IsInNetwork env); [|discriminate]. cbn [negb].
  destruct (String.eqb (Id req) ""); [discriminate|].
  destruct (IsLeader env); [|discriminate]. cbn [negb].
  destruct (IsSecure env);
    [destruct (ProxiedFor env) as [pf|];
       [destruct (String.eqb pf (Id req)); [|discriminate]
       |destruct (AuthenticatedCaller env) as [pe|];
          [destruct (String.eqb pe (Id req)); [|discriminate]|discriminate]]|];
    cbn [negb];
    (destruct (get_fault env); [discriminate|]; rewrite Hl, Hp;
     destruct (peers.PortFor leaving peers.Feature_RAFT =? 0); cbn [negb];
     destruct (remove_fault env); cbn; try discriminate;
     destruct (delete_fault env); cbn; try discriminate;
     intros _; reflexivity).
Qed.

End Leave.

(** ** Admin: network ACLs *)

Section NetworkACL.
Import admin.
Variable IsValidID : string -> bool.
Variable ValidateACL : NetworkACL -> option error.
Variable ACLAction_name : gmap Z string.
Variable Quote : string -> string.

Local Abbreviation Put := (PutNetworkACL IsValidID ValidateACL ACLAction_name).
Local Abbreviation Get := (GetNetworkACL Quote).

Lemma allEmpty_no_match_set acl :
  no_match_set acl ->
  allEmpty [DestinationCidrs acl; SourceCidrs acl; SourceNodes acl;
            DestinationNodes acl] = true.
Proof. intros (-> & -> & -> & ->). reflexivity. Qed.

(** [PutNetworkACL] changes the store only when it succeeds. *)
Lemma PutNetworkACL_err_unchanged env db acl :
  is_Ok (fst (Put env db acl)) = false -> snd (Put env db acl) = db.
Proof.
  unfold PutNetworkACL, networking_PutNetworkACL.
  repeat match goal with
         | |- context [if ?c then _ else _] => destruct c; try reflexivity
         end.
  destruct (ValidateACL acl); [reflexivity|].
  destruct (put_fault env); [reflexivity|]. discriminate.
Qed.

(** C7, as amended.  A request with none of the four match sets fails and
    leaves the store as it was; the checks come in the order leader, name,
    authorisation, action, match sets, so the error is [InvalidArgument]
    on the leader for an authorised caller (and for a bad name), while a
    node that is not the leader answers [FailedPrecondition] and an
    unauthorised caller with a good name gets [PermissionDenied].  Any
    request to a node that is not the leader fails with
    [FailedPrecondition], and on the leader any request whose name is
    empty or not a valid identifier fails with [InvalidArgument]; both
    leave the store as it was. *)
Theorem PutNetworkACL_validation env db acl :
  (no_match_set acl ->
   is_Ok (fst (Put env db acl)) = false /\ snd (Put env db acl) = db /\
   code_of (fst (Put env db acl))
   = if negb (IsLeader env) then FailedPrecondition
     else if String.eqb (Name acl) "" || negb (IsValidID (Name acl))
          then InvalidArgument
     else if negb (fst (Evaluate env)) then PermissionDenied
     else InvalidArgument)
  /\
  (IsLeader env = false ->
   Put env db acl = (Err (Status FailedPrecondition "not the leader"), db))
  /\
  (IsLeader env = true -> Name acl = "" \/ IsValidID (Name acl) = false ->
   code_of (fst (Put env db acl)) = InvalidArgument /\ snd (Put env db acl) = db).
Proof.
  split; [|split].
  - intros Hnone. pose proof (allEmpty_no_match_set acl Hnone) as He.
    assert (Hfail : is_Ok (fst (Put env db acl)) = false).
    { unfold PutNetworkACL. rewrite He.
      repeat match goal with
             | |- context [if ?c then _ else _] => destruct c; try reflexivity
             end. }
    split; [exact Hfail|]. split; [now apply PutNetworkACL_err_unchanged|].
    unfold PutNetworkACL. rewrite He.
    destruct (IsLeader env); [|reflexivity]. cbn [negb].
    destruct (String.eqb (Name acl) ""); [reflexivity|]. cbn [orb].
    destruct (IsValidID (Name acl)); [|reflexivity]. cbn [negb].
    destruct (fst (Evaluate env)); [|reflexivity]. cbn [negb].
    destruct (bool_decide (is_Some (ACLAction_name !! Action acl))); reflexivity.
  - intros Hl. unfold PutNetworkACL. rewrite Hl. reflexivity.
  - intros Hl Hname. unfold PutNetworkACL. rewrite Hl. cbn [negb].
    destruct Hname as [->|Hv].
    + split; reflexivity.
    + destruct (String.eqb (Name acl) ""); [split; reflexivity|].
      rewrite Hv. split; reflexivity.
Qed.

(** A call of [PutNetworkACL] touches no name but that of its ACL. *)
Lemma PutNetworkACL_other env db acl name :
  Name acl <> name -> snd (Put env db acl) !! name = db !! name.
Proof.
  intros Hne. unfold PutNetworkACL, networking_PutNetworkACL.
  repeat match goal with
         | |- context [if ?c then _ else _] => destruct c; try reflexivity
         end.
  destruct (ValidateACL acl); [reflexivity|].
  destruct (put_fault env); [reflexivity|].
  cbn [snd]. now apply lookup_insert_ne.
Qed.

Lemma put_all_other calls : forall db name,
  (forall c, c ∈ calls -> Name (snd c) <> name) ->
  put_all IsValidID ValidateACL ACLAction_name calls db !! name = db !! name.
Proof.
  induction calls as [|c calls IH]; intros db name Hall; [reflexivity|].
  unfold put_all in *. cbn [foldl]. rewrite IH.
  - apply PutNetworkACL_other. apply Hall. left.
  - intros c' Hc'. apply Hall. now right.
Qed.

(** C8, as amended.  On the leader, for an authorised caller, an ACL with
    a valid identifier as its name, a known action, at least one match set
    and nothing for [ValidateACL] to object to is stored (when the storage
    layer accepts the write), and a [GetNetworkACL] with that name then
    answers the very ACL that was put.  A [GetNetworkACL] for a name that
    no earlier [PutNetworkACL] carried answers [NotFound] when the name is
    not empty, and [InvalidArgument] when it is. *)
Theorem NetworkACL_round_trip :
  (forall env db acl,
     IsLeader env = true -> fst (Evaluate env) = true ->
     Name acl <> "" -> IsValidID (Name acl) = true ->
     is_Some (ACLAction_name !! Action acl) -> ValidateACL acl = None ->
     ~ no_match_set acl -> put_fault env = None ->
     exists db',
       Put env db acl = (Ok tt, db') /\
       forall env' q, get_fault env' = None -> Name q = Name acl ->
                      Get env' db' q = Ok acl)
  /\
  (forall calls env' q,
     get_fault env' = None ->
     (forall c, c ∈ calls -> Name (snd c) <> Name q) ->
     Get env' (put_all IsValidID ValidateACL ACLAction_name calls ∅) q
     = if String.eqb (Name q) ""
       then Err (Status InvalidArgument "acl name is required")
       else Err (Status NotFound
                   ("network acl " ++ Quote (Name q) ++ " not found"))).
Proof.
  split.
  - intros env db acl Hl He Hn Hv Ha Hval Hsets Hput.
    exists (<[Name acl := acl]> db). split.
    + unfold PutNetworkACL, networking_PutNetworkACL.
      rewrite Hl, Hv, He, Hval, Hput, (proj2 (String.eqb_neq _ _) Hn).
      rewrite (bool_decide_eq_true_2 _ Ha). cbn [negb].
      assert (Hne : allEmpty [DestinationCidrs acl; SourceCidrs acl;
                              SourceNodes acl; DestinationNodes acl] = false).
      { apply not_true_is_false. intros Hall. apply Hsets. unfold no_match_set.
        cbn [allEmpty] in Hall.
        destruct (DestinationCidrs acl); [|discriminate Hall].
        destruct (SourceCidrs acl); [|discriminate Hall].
        destruct (SourceNodes acl); [|discriminate Hall].
        destruct (DestinationNodes acl); [|discriminate Hall]. tauto. }
      rewrite Hne. reflexivity.
    + intros env' q Hg Hq. unfold GetNetworkACL, networking_GetNetworkACL.
      rewrite Hq, Hg, (proj2 (String.eqb_neq _ _) Hn), lookup_insert_eq. reflexivity.
  - intros calls env' q Hg Hnever. unfold GetNetworkACL, networking_GetNetworkACL.
    destruct (String.eqb (Name q) ""); [reflexivity|].
    rewrite Hg, (put_all_other calls ∅ _ Hnever), lookup_empty. reflexivity.
Qed.

End NetworkACL.

(** ** Plugins called before their storage handle is there *)

Section Unconfigured.

Lemma configured_data decoded : ipam.data (ipam.configured decoded) = None.
Proof.
  unfold ipam.configured.
  assert (H : forall p, ipam.data p = None ->
            ipam.data (foldl (fun p c => snd (ipam.Configure p c)) p decoded) = None).
  { induction decoded as [|c cs IH]; intros p Hp; [exact Hp|].
    cbn [foldl]. apply IH. destruct c; exact Hp. }
  apply H. reflexivity.
Qed.

(** C9, as amended.  A plugin whose storage handle is not there yet
    answers at once: the IPAM [Allocate] fails, for every request, with
    the plain error [plugin not configured], which carries no gRPC code (a
    caller reads [Unknown], not [FailedPrecondition]), and this is what
    every plugin that has only been configured does; the three database
    handlers of the debug plugin answer HTTP 500 with that text. *)
Theorem unconfigured_plugin_fails :
  (forall ParsePrefix p env r,
     ipam.data p = None ->
     ipam.Allocate ParsePrefix p env r = Some (Err (Errorf "plugin not configured")))
  /\
  (forall ParsePrefix decoded env r,
     ipam.Allocate ParsePrefix (ipam.configured decoded) env r
     = Some (Err (Errorf "plugin not configured")))
  /\
  status_Code (Errorf "plugin not configured") = Unknown
  /\
  (forall TrimSpace p q,
     debug.data p = None ->
     let answer := debug.http_Error "plugin not configured"
                     debug.StatusInternalServerError in
     debug.handleDBList p q = answer /\
     debug.handleDBGet TrimSpace p q = answer /\
     debug.handleDBIterPrefix p q = answer).
Proof.
  assert (H : forall ParsePrefix p env r,
     ipam.data p = None ->
     ipam.Allocate ParsePrefix p env r = Some (Err (Errorf "plugin not configured"))).
  { intros ParsePrefix p env r Hd. unfold ipam.Allocate. rewrite Hd. reflexivity. }
  split; [exact H|]. split; [|split; [reflexivity|]].
  - intros. apply H. apply configured_data.
  - intros TrimSpace p q Hd. cbv zeta.
    unfold debug.handleDBList, debug.handleDBGet, debug.handleDBIterPrefix.
    rewrite Hd. repeat split.
Qed.

End Unconfigured.

(** ** The theorems at concrete requests *)

Lemma wf_cidr4 : netip.wf_Prefix ex.cidr4.
Proof.
  unfold netip.wf_Prefix, ex.cidr4; simpl.
  split; [lia|]. split; [discriminate | lia].
Defined.

Lemma wf_cidr6 : netip.wf_Prefix ex.cidr6.
Proof.
  unfold netip.wf_Prefix, ex.cidr6; simpl.
  split; [lia|]. split; [discriminate | lia].
Defined.

Lemma leader_n1_passes : membership.passes_checks ex.leader ex.leave_n1.
Proof.
  unfold membership.passes_checks. simpl.
  split; [reflexivity|]. split; [discriminate|]. split; reflexivity.
Defined.



Example Allocate_skips_held_and_static :
  ipam.Allocate text.ParsePrefix ex.plugin_static4 ex.ipam_env ex.req_slash24
  = Some (Ok (ipam.mkAllocatedIP "10.0.0.4/32")).
Proof. vm_compute. reflexivity. Qed.

Example Allocate_exhausts_slash30 :
  ipam.Allocate text.ParsePrefix ex.plugin_static4 ex.ipam_env ex.req_slash30
  = Some (Err (Errorf "find next available IPv4: no more addresses in 10.0.0.0/30")).
Proof. vm_compute. reflexivity. Qed.

Example Allocate_static_assignment :
  ipam.Allocate text.ParsePrefix ex.plugin_static4 ex.ipam_env
    (ipam.mkAllocateIPRequest "node-b" "not a subnet" ipam.IP_VERSION_4)
  = Some (Ok (ipam.mkAllocatedIP "10.0.0.1/32")).
Proof. vm_compute. reflexivity. Qed.


Example allocateV6_draw_42 :
  ipam.allocateV6 text.ParsePrefix ex.plugin ∅ ex.ipam_env ex.req6
  = Ok (ipam.mkAllocatedIP "fd00:dead:beef:2a::/64").
Proof. vm_compute. reflexivity. Qed.

Example allocateV6_gives_up :
  ipam.allocateV6 text.ParsePrefix ex.plugin_static7 ∅ ex.env_always7 ex.req6
  = Err (Errorf "failed to find available IPv6 after 100 tries").
Proof. vm_compute. reflexivity. Qed.

Example allocateV6_wants_ipv6 :
  ipam.allocateV6 text.ParsePrefix ex.plugin ∅ ex.ipam_env ex.req4
  = Err (Errorf "random IPv6: prefix must be IPv6").
Proof. vm_compute. reflexivity. Qed.

(** [Leave_raft_order] at peer [n1] on the leader. *)
Lemma Leave_raft_order_witness :
  membership.trace (snd (membership.Leave ex.leader ex.leave_n1 ex.server))
  = [membership.RaftRemoveServer "n1" false; membership.PeersDelete "n1";
     membership.RaftBarrier (membership.Second * 15)].
Proof.
  refine (proj1 (Leave_raft_order ex.leader ex.leave_n1 ex.server ex.n1
                   leader_n1_passes eq_refl eq_refl _)).
  vm_compute. discriminate.
Defined.

(** C1 as the specification states it fails: on the leader, for peer [n1]
    with its raft port, the barrier is issued after the delete of the
    record, not before it. *)
Lemma Leave_barrier_after_delete :
  membership.trace (snd (membership.Leave ex.leader ex.leave_n1 ex.server))
  = [membership.RaftRemoveServer "n1" false; membership.PeersDelete "n1";
     membership.RaftBarrier (membership.Second * 15)] /\
  membership.precedes (membership.PeersDelete "n1")
    (membership.RaftBarrier (membership.Second * 15))
    (membership.trace (snd (membership.Leave ex.leader ex.leave_n1 ex.server))) /\
  ~ membership.precedes (membership.RaftBarrier (membership.Second * 15))
      (membership.PeersDelete "n1")
      (membership.trace (snd (membership.Leave ex.leader ex.leave_n1 ex.server))).
Proof.
  assert (E : membership.trace (snd (membership.Leave ex.leader ex.leave_n1 ex.server))
              = [membership.RaftRemoveServer "n1" false; membership.PeersDelete "n1";
                 membership.RaftBarrier (membership.Second * 15)])
    by (vm_compute; reflexivity).
  rewrite E. split; [reflexivity|]. split.
  - exists 1%nat, 2%nat. split; [reflexivity|]. split; [reflexivity | lia].
  - intros (i & j & Hi & Hj & Hij).
    destruct i as [|[|[|i]]]; try discriminate Hi;
      destruct j as [|[|[|j]]]; try discriminate Hj; lia.
Qed.

(** [Leave_identity_mismatch] on the leader: caller [n1], target [n2]. *)
Lemma Leave_identity_mismatch_witness :
  code_of (fst (membership.Leave ex.leader ex.leave_n2 ex.server)) = PermissionDenied /\
  snd (membership.Leave ex.leader ex.leave_n2 ex.server) = ex.server.
Proof.
  refine (Leave_identity_mismatch ex.leader ex.leave_n2 ex.server "n1"
            eq_refl eq_refl _ _); simpl; discriminate.
Defined.

(** C4 as the specification states it fails: with security enabled, the
    caller [n1] and the target [n2], a node that is not the leader answers
    [FailedPrecondition]. *)
Lemma Leave_mismatch_on_follower :
  membership.IsSecure ex.follower = true /\
  membership.caller_identity ex.follower = Some "n1" /\
  membership.Id ex.leave_n2 = "n2" /\
  code_of (fst (membership.Leave ex.follower ex.leave_n2 ex.server))
  = FailedPrecondition /\
  code_of (fst (membership.Leave ex.follower ex.leave_n2 ex.server))
  <> PermissionDenied.
Proof. repeat split; discriminate. Qed.

(** [Leave_absent_peer] on the leader, for [n1] and a store without it. *)
Lemma Leave_absent_peer_witness :
  membership.Leave ex.leader ex.leave_n1 ex.empty_server
  = (Ok membership.mkLeaveResponse, ex.empty_server).
Proof.
  refine (proj1 (Leave_absent_peer ex.leader ex.leave_n1 ex.empty_server
                   leader_n1_passes eq_refl) _).
  reflexivity.
Defined.

(** C5 as the specification states it fails: the target is not in the
    store, and the request is answered an error by a node that is not the
    leader, for a caller outside the network, for a caller that is not the
    target, and when the id is empty. *)
Lemma Leave_absent_on_follower :
  membership.storage ex.empty_server !! "n1" = None /\
  membership.storage ex.empty_server !! "n2" = None /\
  membership.storage ex.empty_server !! "" = None /\
  membership.Leave ex.follower ex.leave_n1 ex.empty_server
  = (Err (Status FailedPrecondition "not leader"), ex.empty_server) /\
  membership.Leave ex.outsider ex.leave_n1 ex.empty_server
  = (Err (Status PermissionDenied "request is not in-network"), ex.empty_server) /\
  membership.Leave ex.leader ex.leave_n2 ex.empty_server
  = (Err (Status PermissionDenied "peer id n1, not n2"), ex.empty_server) /\
  membership.Leave ex.leader ex.leave_nobody ex.empty_server
  = (Err (Status InvalidArgument "id is required"), ex.empty_server).
Proof. repeat split. Qed.

(** [Leave_preconditions] on a node that is not the leader. *)
Lemma Leave_preconditions_witness :
  membership.Leave ex.follower ex.leave_n1 ex.server
  = (Err (Status FailedPrecondition "not leader"), ex.server).
Proof.
  refine (proj2 (proj2 (Leave_preconditions ex.follower ex.leave_n1 ex.server))
            eq_refl _ eq_refl).
  simpl; discriminate.
Defined.

(** C6 as the specification states it fails: from outside the network,
    a request with an empty id and a request to a node that is not the
    leader are both answered [PermissionDenied]; and a request with an
    empty id to a node that is not the leader is answered
    [InvalidArgument]. *)
Lemma Leave_empty_id_out_of_network :
  code_of (fst (membership.Leave ex.outsider ex.leave_nobody ex.server))
  = PermissionDenied /\
  code_of (fst (membership.Leave ex.outsider ex.leave_nobody ex.server))
  <> InvalidArgument /\
  membership.IsLeader ex.outsider_at_follower = false /\
  code_of (fst (membership.Leave ex.outsider_at_follower ex.leave_n1 ex.server))
  = PermissionDenied /\
  code_of (fst (membership.Leave ex.outsider_at_follower ex.leave_n1 ex.server))
  <> FailedPrecondition /\
  membership.IsLeader ex.follower = false /\
  code_of (fst (membership.Leave ex.follower ex.leave_nobody ex.server))
  = InvalidArgument /\
  code_of (fst (membership.Leave ex.follower ex.leave_nobody ex.server))
  <> FailedPrecondition.
Proof. repeat split; discriminate. Qed.

(** [Leave_emits_node_join] at peer [n1] on the leader. *)
Lemma Leave_emits_node_join_witness :
  membership.emitted (snd (membership.Leave ex.leader ex.leave_n1 ex.server))
  = [membership.mkEvent membership.Event_NODE_JOIN
       (membership.mkMeshNode "n1" "198.51.100.7:51820" ["198.51.100.7:51820"]
          "zone-a" "pubkey-n1" "172.16.0.2/32" "fd00:dead:beef::/64"
          (peers.Features ex.n1) 1700000000)].
Proof.
  exact (proj1 (Leave_emits_node_join ex.leader ex.leave_n1 ex.server ex.n1
                  eq_refl eq_refl eq_refl)).
Defined.

(** [PutNetworkACL_validation] on the leader, for an ACL with no match
    set. *)
Lemma PutNetworkACL_validation_witness :
  code_of (fst (admin.PutNetworkACL ex.IsValidID ex.ValidateACL ex.ACLAction_name
                  ex.admin_leader ∅ ex.acl_no_sets)) = InvalidArgument.
Proof.
  refine (proj2 (proj2 (proj1 (PutNetworkACL_validation ex.IsValidID ex.ValidateACL
            ex.ACLAction_name ex.admin_leader ∅ ex.acl_no_sets) _))).
  unfold admin.no_match_set. simpl. repeat split.
Defined.

(** C7 as the specification states it fails: an ACL with no match set is
    answered [FailedPrecondition] by a node that is not the leader and
    [PermissionDenied] on the leader for a caller without the grant; and an
    ACL with an empty name is answered [FailedPrecondition] by a node that
    is not the leader. *)
Lemma PutNetworkACL_no_sets_on_follower :
  admin.no_match_set ex.acl_no_sets /\
  code_of (fst (admin.PutNetworkACL ex.IsValidID ex.ValidateACL ex.ACLAction_name
                  ex.admin_follower ∅ ex.acl_no_sets)) = FailedPrecondition /\
  code_of (fst (admin.PutNetworkACL ex.IsValidID ex.ValidateACL ex.ACLAction_name
                  ex.admin_follower ∅ ex.acl_no_sets)) <> InvalidArgument /\
  code_of (fst (admin.PutNetworkACL ex.IsValidID ex.ValidateACL ex.ACLAction_name
                  ex.admin_denied ∅ ex.acl_no_sets)) = PermissionDenied /\
  code_of (fst (admin.PutNetworkACL ex.IsValidID ex.ValidateACL ex.ACLAction_name
                  ex.admin_denied ∅ ex.acl_no_sets)) <> InvalidArgument /\
  admin.Name ex.acl_no_name = "" /\
  code_of (fst (admin.PutNetworkACL ex.IsValidID ex.ValidateACL ex.ACLAction_name
                  ex.admin_follower ∅ ex.acl_no_name)) = FailedPrecondition /\
  code_of (fst (admin.PutNetworkACL ex.IsValidID ex.ValidateACL ex.ACLAction_name
                  ex.admin_follower ∅ ex.acl_no_name)) <> InvalidArgument.
Proof.
  split; [unfold admin.no_match_set; simpl; repeat split|].
  repeat split; discriminate.
Qed.

(** [NetworkACL_round_trip] for the ACL [allow-web] on the leader. *)
Lemma NetworkACL_round_trip_witness :
  exists db',
    admin.PutNetworkACL ex.IsValidID ex.ValidateACL ex.ACLAction_name
      ex.admin_leader ∅ ex.acl = (Ok tt, db') /\
    admin.GetNetworkACL ex.Quote ex.admin_leader db' ex.acl = Ok ex.acl.
Proof.
  destruct (proj1 (NetworkACL_round_trip ex.IsValidID ex.ValidateACL
                     ex.ACLAction_name ex.Quote) ex.admin_leader ∅ ex.acl)
    as (db' & Hput & Hget).
  - reflexivity.
  - reflexivity.
  - simpl; discriminate.
  - reflexivity.
  - exists "ACTION_ACCEPT". reflexivity.
  - reflexivity.
  - unfold admin.no_match_set. simpl. intros (_ & _ & H & _). discriminate H.
  - reflexivity.
  - exists db'. split; [exact Hput|]. apply Hget; reflexivity.
Defined.

(** C8 as the specification states it fails: on a store nothing was ever
    put in, a [GetNetworkACL] with the empty name is answered
    [InvalidArgument], not [NotFound]. *)
Lemma GetNetworkACL_without_name :
  admin.GetNetworkACL ex.Quote ex.admin_leader
    (admin.put_all ex.IsValidID ex.ValidateACL ex.ACLAction_name [] ∅)
    (admin.mkNetworkACL "" 0 0 [] [] [] [])
  = Err (Status InvalidArgument "acl name is required") /\
  code_of (admin.GetNetworkACL ex.Quote ex.admin_leader
             (admin.put_all ex.IsValidID ex.ValidateACL ex.ACLAction_name [] ∅)
             (admin.mkNetworkACL "" 0 0 [] [] [] []))
  <> NotFound.
Proof. split; [reflexivity | discriminate]. Qed.

(** [unconfigured_plugin_fails] for a plugin that nothing has been done
    to. *)
Lemma unconfigured_plugin_fails_witness :
  ipam.Allocate text.ParsePrefix ipam.zero_Plugin ex.ipam_env ex.req4
  = Some (Err (Errorf "plugin not configured")).
Proof.
  exact (proj1 unconfigured_plugin_fails text.ParsePrefix ipam.zero_Plugin
           ex.ipam_env ex.req4 eq_refl).
Defined.

(** C9 as the specification states it fails: the error of [Allocate]
    before [InjectQuerier] is not a [FailedPrecondition] status. *)
Lemma Allocate_unconfigured_not_FailedPrecondition :
  exists e,
    ipam.Allocate text.ParsePrefix ipam.zero_Plugin ex.ipam_env ex.req4 = Some (Err e) /\
    Error e = "plugin not configured" /\
    status_Code e = Unknown /\
    status_Code e <> FailedPrecondition.
Proof.
  exists (Errorf "plugin not configured").
  repeat split; discriminate.
Qed.

(** * Further properties *)

(** ** IPAM: successive allocations *)

Section Successive.
Import netip ipam ipam_seq.

Lemma Addr_PrefixFrom ip bits : Addr_ (PrefixFrom ip bits) = ip.
Proof. unfold PrefixFrom. destruct (_ && _); reflexivity. Qed.

Lemma free_mono p (set set' : gset Prefix) prefix :
  set ⊆ set' -> free p set' prefix = true -> free p set prefix = true.
Proof.
  unfold free. rewrite !andb_true_iff, !negb_true_iff, !bool_decide_eq_false.
  intros Hsub [Hn Hs]. split; [|exact Hs]. intros Hin. apply Hn, Hsub, Hin.
Qed.

Lemma free_not_in p (set : gset Prefix) prefix :
  free p set prefix = true -> prefix ∉ set.
Proof.
  unfold free. rewrite andb_true_iff, negb_true_iff, bool_decide_eq_false. tauto.
Qed.

(** Once a prefix handed out is recorded, every later answer lies after it. *)
Lemma next32_later p cidr (set set' : gset Prefix) pr pr' :
  wf_Prefix cidr ->
  next32 p cidr set = Some (Ok pr) -> {[ pr ]} ∪ set ⊆ set' ->
  next32 p cidr set' = Some (Ok pr') ->
  after (Addr_ pr) (Addr_ pr').
Proof.
  intros Hwf H1 Hsub H2.
  destruct (next32_spec p cidr set Hwf) as (r1 & E1 & P1).
  rewrite H1 in E1. injection E1 as <-.
  destruct P1 as (ip & -> & Hw & HC & [Hf Hv] & Hfree & Hall).
  destruct (next32_spec p cidr set' Hwf) as (r2 & E2 & P2).
  rewrite H2 in E2. injection E2 as <-.
  destruct P2 as (ip' & -> & Hw' & HC' & [Hf' Hv'] & Hfree' & _).
  rewrite !Addr_PrefixFrom.
  assert (Hnz : ip' <> AddrZero).
  { intros ->. destruct Hwf as (_ & Hnz & _).
    destruct (Addr_ cidr); simpl in Hf'; congruence || lia. }
  split; [congruence|].
  destruct (Z.lt_trichotomy (val ip') (val ip)) as [Hlt|[Heq|Hgt]]; [| |exact Hgt].
  - exfalso. assert (Ht : taken p set ip').
    { apply Hall; [assumption | split; assumption | split; [congruence | assumption]]. }
    unfold taken in Ht.
    rewrite (free_mono p set set' _ ltac:(set_solver) Hfree') in Ht. discriminate.
  - exfalso. assert (ip' = ip) as -> by (apply wf_same_val; [congruence | assumption | assumption]).
    apply free_not_in in Hfree'. apply Hfree'. set_solver.
Qed.

Lemma allocate_many_later n : forall p cidr (set set' : gset Prefix) pr x,
  wf_Prefix cidr ->
  next32 p cidr set = Some (Ok pr) -> {[ pr ]} ∪ set ⊆ set' ->
  x ∈ allocate_many n p cidr set' -> after (Addr_ pr) (Addr_ x).
Proof.
  induction n as [|n IH]; intros p cidr set set' pr x Hwf H1 Hsub Hx; simpl in Hx.
  - inversion Hx.
  - destruct (next32 p cidr set') as [[pr'|e]|] eqn:H2; try (inversion Hx; fail).
    apply elem_of_cons in Hx as [->|Hx].
    + exact (next32_later p cidr set set' pr pr' Hwf H1 Hsub H2).
    + apply (IH p cidr set ({[pr']} ∪ set') pr x Hwf H1); [set_solver | exact Hx].
Qed.

(** X1.  The prefixes a series of allocations hands out, each recorded before
    the next call, come in strictly increasing order of address, so that no
    two are equal; each is a /32 inside the subnet, was not allocated
    before the series and is not the text of a static assignment. *)
Theorem allocate_many_distinct n p cidr (set : gset Prefix) :
  wf_Prefix cidr ->
  StronglySorted (fun a b => after (Addr_ a) (Addr_ b))
    (allocate_many n p cidr set)
  /\ NoDup (allocate_many n p cidr set)
  /\ forall pr, pr ∈ allocate_many n p cidr set ->
       (pr ∉ set) /\ isStaticAllocation p pr = false /\
       Contains cidr (Addr_ pr) = true /\ pr = PrefixFrom (Addr_ pr) 32.
Proof.
  intros Hwf.
  assert (Hsorted : forall n set, StronglySorted (fun a b => after (Addr_ a) (Addr_ b))
                      (allocate_many n p cidr set)).
  { clear n set. induction n as [|n IH]; intros set; simpl; [constructor|].
    destruct (next32 p cidr set) as [[pr|e]|] eqn:H1; try constructor.
    - apply IH.
    - apply Forall_forall. intros x Hx.
      apply (allocate_many_later n p cidr set ({[pr]} ∪ set) pr x Hwf H1); [set_solver|].
      exact Hx. }
  split; [apply Hsorted|]. split.
  - specialize (Hsorted n set). induction Hsorted as [|a l Hl IH Hall]; constructor.
    + intros Hin. rewrite Forall_forall in Hall. specialize (Hall a Hin).
      destruct Hall as [_ Hlt]. lia.
    + exact IH.
  - revert set. induction n as [|n IH]; intros set pr Hin; simpl in Hin.
    + inversion Hin.
    + destruct (next32 p cidr set) as [[pr1|e]|] eqn:H1; try (inversion Hin; fail).
      apply elem_of_cons in Hin as [->|Hin].
      * destruct (next32_spec p cidr set Hwf) as (r1 & E1 & P1).
        rewrite H1 in E1. injection E1 as <-.
        destruct P1 as (ip & -> & Hw & HC & _ & Hfree & _).
        rewrite Addr_PrefixFrom. split; [now apply (free_not_in p)|].
        split; [|split; [exact HC | reflexivity]].
        unfold free in Hfree. apply andb_true_iff in Hfree as [_ Hs].
        now apply negb_true_iff in Hs.
      * destruct (IH _ _ Hin) as (Hn & Hs & HC & He).
        split; [set_solver|]. split; [exact Hs|]. split; assumption.
Qed.

(** X2.  A subnet that is a single address (a /32 of IPv4, a /128 of IPv6) has
    nothing to hand out: [next32] fails with the exhaustion error whatever
    is allocated. *)
Theorem next32_single_address p cidr (set : gset Prefix) :
  wf_Prefix cidr -> Bits cidr = BitLen (Addr_ cidr) ->
  next32 p cidr set
  = Some (Err (Errorf ("no more addresses in " ++ Prefix_String cidr))).
Proof.
  intros Hwf Hb. destruct (next32_spec p cidr set Hwf) as (r & -> & P).
  destruct r as [pr|e].
  - exfalso. destruct P as (ip & -> & Hw & HC & [Hf Hv] & _).
    apply (Contains_iff cidr ip Hwf Hw) in HC as [_ HC].
    rewrite Hb, Z.sub_diag in HC. simpl in HC. rewrite !Z.div_1_r in HC. lia.
  - destruct P as (-> & _). reflexivity.
Qed.

(** X3.  [Configure] never drops or replaces the storage handle: once
    [InjectQuerier] has run, the plugin holds the handle it was given
    through any series of configurations, so [Allocate] gets past the
    not-configured guard and answers what the static assignment, or the
    allocator of the version asked for, answers. *)
Theorem reconfigured_keeps_handle ParsePrefix p db decoded env r :
  data (reconfigured p db decoded) = Some db /\
  Allocate ParsePrefix (reconfigured p db decoded) env r
  = let p' := reconfigured p db decoded in
    match Version r with
    | IP_VERSION_4 =>
        match StaticIPv4 (config p') !! NodeId r with
        | Some addr => Some (Ok (mkAllocatedIP addr))
        | None => allocateV4 ParsePrefix p' db env r
        end
    | IP_VERSION_6 =>
        match StaticIPv6 (config p') !! NodeId r with
        | Some addr => Some (Ok (mkAllocatedIP addr))
        | None => Some (allocateV6 ParsePrefix p' db env r)
        end
    | IP_VERSION_UNKNOWN =>
        Some (Err (Errorf "unsupported IP version: IP_VERSION_UNKNOWN"))
    end.
Proof.
  assert (H : data (reconfigured p db decoded) = Some db).
  { unfold reconfigured.
    assert (G : forall q, data q = Some db ->
              data (foldl (fun p c => snd (Configure p c)) q decoded) = Some db).
    { induction decoded as [|c cs IH]; intros q Hq; [exact Hq|].
      cbn [foldl]. apply IH. destruct c; exact Hq. }
    apply G. reflexivity. }
  split; [exact H|]. unfold Allocate. rewrite H. reflexivity.
Qed.

End Successive.

(** ** IPv6 subnets: [random64] and [netutil.Random64] *)

Section Subnets.
Import netip ipam.

Lemma Random64_random64 n prefix : netutil.Random64 n prefix = random64 n prefix.
Proof. reflexivity. Qed.

(** X4.  On an IPv6 /48 the subnet id decides the /64: two draws give the same
    prefix exactly when they agree on their low 16 bits, so that the 65536
    subnet ids give 65536 prefixes. *)
Theorem random64_injective n m a :
  0 <= a < 2 ^ 128 ->
  (random64 n (mkPrefix (IPv6 a) 48) = random64 m (mkPrefix (IPv6 a) 48)
   <-> uint16 n = uint16 m)
  /\
  (netutil.Random64 n (mkPrefix (IPv6 a) 48)
   = netutil.Random64 m (mkPrefix (IPv6 a) 48) <-> uint16 n = uint16 m).
Proof.
  intros Ha.
  assert (H : random64 n (mkPrefix (IPv6 a) 48) = random64 m (mkPrefix (IPv6 a) 48)
              <-> uint16 n = uint16 m).
  { rewrite (random64_ok n a (mkEnv None (fun _ => n)) 0 Ha eq_refl).
    rewrite (random64_ok m a (mkEnv None (fun _ => m)) 0 Ha eq_refl).
    unfold candidate. cbn [Intn65536]. split.
    - intros [= E].
      pose proof (with_subnet_spec a _ Ha (uint16_range n)) as (_ & _ & Hn & _).
      pose proof (with_subnet_spec a _ Ha (uint16_range m)) as (_ & _ & Hm & _).
      rewrite E in Hn. congruence.
    - intros ->. reflexivity. }
  split; [exact H|]. rewrite !Random64_random64. exact H.
Qed.

(** X5.  The /64 that [random64] makes of a /48 lies inside that /48, is a valid
    prefix, and is not itself accepted by [random64]. *)
Theorem random64_inside n prefix a :
  wf_Prefix prefix -> Addr_ prefix = IPv6 a -> Bits prefix = 48 ->
  exists a',
    random64 n prefix = Ok (mkPrefix (IPv6 a') 64) /\
    wf_Prefix (mkPrefix (IPv6 a') 64) /\
    Contains prefix (IPv6 a') = true /\
    (forall m, exists msg,
       random64 m (mkPrefix (IPv6 a') 64) = Err (Errorf msg)).
Proof.
  intros Hwf Ha Hb. destruct prefix as [pa pb]; simpl in Ha, Hb; subst pa pb.
  assert (Hr : 0 <= a < 2 ^ 128) by (destruct Hwf as (H & _); exact H).
  exists (with_subnet a (uint16 n)).
  pose proof (with_subnet_spec a _ Hr (uint16_range n)) as (Hb' & H1 & _ & _).
  split; [exact (random64_ok n a (mkEnv None (fun _ => n)) 0 Hr eq_refl)|].
  split; [unfold wf_Prefix; simpl; split; [exact Hb'|split; [discriminate|lia]]|].
  split.
  - apply Contains_iff; [exact Hwf | exact Hb'|]. simpl. split; [reflexivity|].
    exact H1.
  - intros m. apply random64_err. right. simpl. lia.
Qed.

End Subnets.

(** ** Leave: what it changes and what it never does *)

Section LeaveFrame.
Import membership.

Local Ltac leave_unfold :=
  cbv beta iota zeta delta
    [Leave bind ret fail defer peers_Get peers_Delete raft_RemoveServer
     raft_Barrier issue go notify peers.Get peers.Delete of_fault].

Local Ltac leave_split :=
  repeat first
    [ progress cbn [negb fst snd storage trace emitted is_Ok]
    | match goal with
      | |- context [match ?x with _ => _ end] =>
          lazymatch x with
          | context [match _ with _ => _ end] => fail
          | _ => destruct x eqn:?
          end
      end ].

(** X6.  Whatever its collaborators answer, [Leave] touches no record but the
    one of the id in the request: the store it leaves is the one it found,
    or that one without the record; and when it fails the store and the
    events are as it found them. *)
Theorem Leave_frame env req s :
  (storage (snd (Leave env req s)) = storage s \/
   storage (snd (Leave env req s)) = delete (Id req) (storage s)) /\
  (forall id, id <> Id req ->
     storage (snd (Leave env req s)) !! id = storage s !! id) /\
  (is_Ok (fst (Leave env req s)) = false ->
     storage (snd (Leave env req s)) = storage s /\
     emitted (snd (Leave env req s)) = emitted s).
Proof.
  assert (H : (storage (snd (Leave env req s)) = storage s \/
               storage (snd (Leave env req s)) = delete (Id req) (storage s)) /\
              (is_Ok (fst (Leave env req s)) = false ->
                 storage (snd (Leave env req s)) = storage s /\
                 emitted (snd (Leave env req s)) = emitted s)).
  { leave_unfold. leave_split;
      (split; [first [left; reflexivity | right; reflexivity]
              | first [discriminate | intros _; split; reflexivity]]). }
  destruct H as [H1 H2]. split; [exact H1|]. split; [|exact H2].
  intros id Hne. destruct H1 as [->| ->]; [reflexivity|].
  now apply lookup_delete_ne.
Qed.

(** X7.  The calls [Leave] issues are one of four series, each about the id in
    the request only: none; the delete alone; [RemoveServer] and the
    barrier; [RemoveServer], the delete and the barrier.  So
    [RemoveServer] is only ever called with its flag false, the barrier is
    issued exactly when [RemoveServer] is, and always last. *)
Theorem Leave_calls env req s :
  exists calls,
    trace (snd (Leave env req s)) = (trace s ++ calls)%list /\
    (calls = [] \/
     calls = [PeersDelete (Id req)] \/
     calls = [RaftRemoveServer (Id req) false; RaftBarrier (Second * 15)] \/
     calls = [RaftRemoveServer (Id req) false; PeersDelete (Id req);
              RaftBarrier (Second * 15)]).
Proof.
  leave_unfold. leave_split; rewrite <- ?app_assoc; cbn [app];
    first
      [ exists []; split; [now rewrite app_nil_r | tauto]
      | eexists; split; [reflexivity | tauto] ].
Qed.

(** X8.  A request that one of the checks at the head of [Leave] refuses
    changes nothing at all: no call is issued, no record removed, no event
    emitted. *)
Theorem Leave_refused_unchanged env req s :
  ~ passes_checks env req ->
  is_Ok (fst (Leave env req s)) = false /\ snd (Leave env req s) = s.
Proof.
  intros Hno. leave_unfold.
  destruct (IsInNetwork env) eqn:Hn; cbn [negb]; [|split; reflexivity].
  destruct (String.eqb (Id req) "") eqn:Hid; [split; reflexivity|].
  destruct (IsLeader env) eqn:Hl; cbn [negb]; [|split; reflexivity].
  apply String.eqb_neq in Hid.
  destruct (IsSecure env) eqn:Hs.
  - destruct (ProxiedFor env) as [pf|] eqn:Hp.
    + destruct (String.eqb pf (Id req)) eqn:He; cbn [negb]; [|split; reflexivity].
      exfalso. apply Hno. apply String.eqb_eq in He. subst pf.
      repeat split; try assumption. intros _. unfold caller_identity.
      now rewrite Hp.
    + destruct (AuthenticatedCaller env) as [pe|] eqn:Ha; [|split; reflexivity].
      destruct (String.eqb pe (Id req)) eqn:He; cbn [negb]; [|split; reflexivity].
      exfalso. apply Hno. apply String.eqb_eq in He. subst pe.
      repeat split; try assumption. intros _. unfold caller_identity.
      now rewrite Hp.
  - exfalso. apply Hno. repeat split; try assumption. intros; congruence.
Qed.

(** X9.  An event is handed to the plugins only by a [Leave] that succeeds in
    removing a record, and then there is exactly one, about that record;
    without a plugin manager, or without watchers, there is none. *)
Theorem Leave_events env req s :
  emitted (snd (Leave env req s)) = emitted s \/
  exists leaving ev,
    storage s !! Id req = Some leaving /\
    plugins env = Some true /\
    fst (Leave env req s) = Ok mkLeaveResponse /\
    storage (snd (Leave env req s)) = delete (Id req) (storage s) /\
    Node_Id (Node ev) = peers.Id leaving /\
    emitted (snd (Leave env req s)) = (emitted s ++ [ev])%list.
Proof.
  leave_unfold. leave_split;
    first [ left; reflexivity
          | right; do 2 eexists; repeat split; try reflexivity; eassumption ].
Qed.

(** X10.  [Leave] is idempotent: after a [Leave] that succeeded, a second one
    for the same id that passes the checks, and whose lookup does not
    fail, succeeds too and changes nothing; it issues no call. *)
Theorem Leave_twice env env' req s :
  is_Ok (fst (Leave env req s)) = true ->
  passes_checks env' req -> get_fault env' = None ->
  Leave env' req (snd (Leave env req s))
  = (Ok mkLeaveResponse, snd (Leave env req s)).
Proof.
  intros Hok Hadm Hget.
  pose proof (Leave_ok_absent env req s Hok) as Habs.
  rewrite (Leave_after_checks _ _ _ Hadm).
  cbv beta iota zeta delta [bind ret peers_Get peers.Get].
  rewrite Hget, Habs. reflexivity.
Qed.

End LeaveFrame.

(** ** Leave and GetNode *)

Section LeaveGetNode.
Import membership.
Variable APINode : Type.
Variable dbNodeToAPINode : peers.Node -> APINode.

(** X11.  After a [Leave] that succeeded, [GetNode] for the id that left
    answers [NotFound], while every other node is answered as before. *)
Theorem GetNode_after_Leave env req s :
  is_Ok (fst (Leave env req s)) = true ->
  node.GetNode APINode dbNodeToAPINode None (storage (snd (Leave env req s))) (Id req)
  = Err (Status NotFound ("node " ++ Id req ++ " not found")) /\
  forall id, id <> Id req ->
    node.GetNode APINode dbNodeToAPINode None (storage (snd (Leave env req s))) id
    = node.GetNode APINode dbNodeToAPINode None (storage s) id.
Proof.
  intros Hok. pose proof (Leave_ok_absent env req s Hok) as Habs.
  split.
  - unfold node.GetNode, peers.Get. rewrite Habs. reflexivity.
  - intros id Hne. unfold node.GetNode, peers.Get.
    assert (E : storage (snd (Leave env req s)) !! id = storage s !! id).
    { revert Hne. clear.
      cbv beta iota zeta delta
        [Leave bind ret fail defer peers_Get peers_Delete raft_RemoveServer
         raft_Barrier issue go notify peers.Get peers.Delete of_fault].
      intros Hne.
      repeat first
        [ progress cbn [negb fst snd storage trace emitted]
        | match goal with
          | |- context [match ?x with _ => _ end] =>
              lazymatch x with
              | context [match _ with _ => _ end] => fail
              | _ => destruct x eqn:?
              end
          end ]; first [reflexivity | now apply lookup_delete_ne]. }
    rewrite E. reflexivity.
Qed.

End LeaveGetNode.

(** ** PutNetworkACL: when it succeeds *)

Section PutOutcome.
Import admin.
Variable IsValidID : string -> bool.
Variable ValidateACL : NetworkACL -> option error.
Variable ACLAction_name : gmap Z string.

Local Abbreviation Put := (PutNetworkACL IsValidID ValidateACL ACLAction_name).

(** X12.  [allEmpty] answers true exactly when every list is empty. *)
Theorem allEmpty_iff ss : allEmpty ss = true <-> Forall (fun s => s = []) ss.
Proof.
  induction ss as [|s ss IH]; simpl.
  - split; [constructor | reflexivity].
  - destruct s as [|x s]; simpl.
    + rewrite IH. split; [now constructor | now inversion 1].
    + split; [discriminate | inversion 1; discriminate].
Qed.

Lemma allEmpty_false_sets acl :
  allEmpty [DestinationCidrs acl; SourceCidrs acl; SourceNodes acl;
            DestinationNodes acl] = false -> ~ no_match_set acl.
Proof.
  intros H (H1 & H2 & H3 & H4). rewrite H1, H2, H3, H4 in H. discriminate.
Qed.

(** X13.  [PutNetworkACL] succeeds only when every check passes and the storage
    layer accepts the write: on the leader, for a non-empty name that is a
    valid id, an authorised caller, a known action, at least one match
    set and an ACL [ValidateACL] accepts; the store then holds the ACL
    under its name and is otherwise as before. *)
Theorem PutNetworkACL_ok_only_if env db acl :
  is_Ok (fst (Put env db acl)) = true ->
  IsLeader env = true /\ Name acl <> "" /\ IsValidID (Name acl) = true /\
  fst (Evaluate env) = true /\ is_Some (ACLAction_name !! Action acl) /\
  ~ no_match_set acl /\ ValidateACL acl = None /\ put_fault env = None /\
  snd (Put env db acl) = <[Name acl := acl]> db.
Proof.
  unfold PutNetworkACL, networking_PutNetworkACL.
  destruct (IsLeader env); cbn [negb]; [|discriminate].
  destruct (String.eqb (Name acl) "") eqn:Hn; [discriminate|].
  destruct (IsValidID (Name acl)); cbn [negb]; [|discriminate].
  destruct (fst (Evaluate env)); cbn [negb]; [|discriminate].
  destruct (bool_decide (is_Some (ACLAction_name !! Action acl))) eqn:Ha;
    cbn [negb]; [|discriminate].
  destruct (allEmpty _) eqn:He; [discriminate|].
  destruct (ValidateACL acl); [discriminate|].
  destruct (put_fault env); [discriminate|]. intros _.
  apply String.eqb_neq in Hn. apply bool_decide_eq_true in Ha.
  apply allEmpty_false_sets in He. repeat split; assumption.
Qed.

(** X14.  [PutNetworkACL] answers [Internal] only for a write the storage layer
    refused, after every check has passed; no other failure is reported
    with that code, and the store is left as it was. *)
Theorem PutNetworkACL_internal_only_storage env db acl :
  code_of (fst (Put env db acl)) = Internal ->
  (exists msg, put_fault env = Some msg /\
     fst (Put env db acl) = Err (Status Internal msg)) /\
  IsLeader env = true /\ fst (Evaluate env) = true /\
  ValidateACL acl = None /\ ~ no_match_set acl /\
  snd (Put env db acl) = db.
Proof.
  unfold PutNetworkACL, networking_PutNetworkACL.
  destruct (IsLeader env); cbn [negb]; [|discriminate].
  destruct (String.eqb (Name acl) "") eqn:Hn; [discriminate|].
  destruct (IsValidID (Name acl)); cbn [negb]; [|discriminate].
  destruct (fst (Evaluate env)); cbn [negb]; [|discriminate].
  destruct (bool_decide (is_Some (ACLAction_name !! Action acl))) eqn:Ha;
    cbn [negb]; [|discriminate].
  destruct (allEmpty _) eqn:He; [discriminate|].
  destruct (ValidateACL acl); [discriminate|].
  destruct (put_fault env) as [msg|]; [|discriminate]. intros _.
  apply allEmpty_false_sets in He.
  repeat split; try assumption. exists msg. split; reflexivity.
Qed.

End PutOutcome.

(** ** The debug plugin: configuration, routes and the list handler *)

Section DebugServer.
Import debug_server.

Lemma routes_empty_iff opts :
  routes opts = [] <-> DisablePProf opts = true /\ EnableDBQuerier opts = false.
Proof.
  unfold routes. destruct (DisablePProf opts), (EnableDBQuerier opts); cbn [negb].
  - split; [discriminate | intros [_ ?]; discriminate].
  - tauto.
  - split; [|intros [? _]; discriminate].
    destruct (length (PprofProfiles opts) =? 0)%nat eqn:E.
    + discriminate.
    + destruct (PprofProfiles opts); [discriminate E | discriminate].
  - split; [|intros [? _]; discriminate].
    rewrite app_nil_r.
    destruct (length (PprofProfiles opts) =? 0)%nat eqn:E.
    + discriminate.
    + destruct (PprofProfiles opts); [discriminate E | discriminate].
Qed.

(** X15.  [Configure] accepts exactly the decoded options that give the server
    something to serve, and refuses those that would register no route,
    which are the ones that disable both the profiles and the database
    querier; without a configuration it accepts the defaults, which
    register a route. *)
Theorem Configure_accepts_iff_route Decode opts :
  Decode NewDefaultOptions = Ok opts ->
  (routes opts <> [] -> Configure false Decode = Ok opts) /\
  (routes opts = [] ->
     Configure false Decode
     = Err (Errorf "both pprof and db querier are disabled")) /\
  Configure true Decode = Ok NewDefaultOptions /\
  routes NewDefaultOptions <> [].
Proof.
  intros HD. unfold Configure. rewrite HD. split; [|split].
  - intros Hr. destruct (DisablePProf opts && negb (EnableDBQuerier opts)) eqn:E;
      [|reflexivity].
    exfalso. apply Hr. apply routes_empty_iff.
    apply andb_true_iff in E as [E1 E2]. apply negb_true_iff in E2. now split.
  - intros Hr. apply routes_empty_iff in Hr as [H1 H2]. rewrite H1, H2. reflexivity.
  - split; [reflexivity | discriminate].
Qed.

End DebugServer.

Section ListHandler.
Import debug.

Local Abbreviation nl := (String "010" "").
Local Abbreviation LF := ("010"%char).

Lemma split_on_plain c s : sep.mentions c s = false -> text.split_on c s = [s].
Proof.
  induction s as [|x s IH]; simpl; [reflexivity|].
  destruct (Ascii.eqb x c); [discriminate|]. simpl. intros H.
  rewrite (IH H). reflexivity.
Qed.

Lemma split_on_app c s rest :
  sep.mentions c s = false ->
  text.split_on c (s ++ String c rest) = s :: text.split_on c rest.
Proof.
  induction s as [|x s IH]; simpl.
  - rewrite Ascii.eqb_refl. reflexivity.
  - destruct (Ascii.eqb x c); [discriminate|]. simpl. intros H.
    rewrite (IH H). reflexivity.
Qed.

Lemma split_on_concat c keys :
  keys <> [] -> Forall (fun k => sep.mentions c k = false) keys ->
  text.split_on c (String.concat (String c "") keys) = keys.
Proof.
  intros Hne Hall. induction Hall as [|k keys Hk Hall IH]; [congruence|].
  destruct keys as [|k' keys].
  - simpl. now apply split_on_plain.
  - change (String.concat (String c "") (k :: k' :: keys))
      with (k ++ String c (String.concat (String c "") (k' :: keys))).
    rewrite (split_on_app c k _ Hk). rewrite IH; [reflexivity | discriminate].
Qed.

(** X16.  The body [handleDBList] writes for a successful query reads back:
    split at the line feeds it gives the keys the store answered, in
    order, provided there is at least one key and no key holds a line
    feed.  No keys at all are written as the empty body, which reads back
    as one empty key. *)
Theorem handleDBList_round_trip p db q keys :
  data p = Some db -> List db q = Ok keys ->
  Forall (fun k => sep.mentions LF k = false) keys ->
  StatusCode (handleDBList p q) = StatusOK /\
  text.split_on LF (Body (handleDBList p q))
  = match keys with [] => [""] | _ => keys end.
Proof.
  intros Hd Hl Hall. unfold handleDBList. rewrite Hd, Hl. cbn [StatusCode Body].
  split; [reflexivity|]. destruct keys as [|k keys]; [reflexivity|].
  apply split_on_concat; [discriminate | exact Hall].
Qed.

End ListHandler.

(** ** The state queries: RPC addresses *)

Section RPCAddresses.
Import state.
Variable PublicRPCAddr : peers.Node -> AddrPort.
Variable PrivateRPCAddrV4 : peers.Node -> AddrPort.
Variable PrivateRPCAddrV6 : peers.Node -> AddrPort.

Local Abbreviation private_of node :=
  (if AddrPort_IsValid (PrivateRPCAddrV4 node)
   then PrivateRPCAddrV4 node else PrivateRPCAddrV6 node).

Lemma private_fold nodeID nodes :
  let m := foldl (fun out node =>
                    if String.eqb (peers.Id node) nodeID then out
                    else <[peers.Id node := private_of node]> out)
                 (∅ : gmap string AddrPort) nodes in
  m !! nodeID = None /\
  (forall id, is_Some (m !! id) <->
     id <> nodeID /\ exists n, n ∈ nodes /\ peers.Id n = id) /\
  (forall id a, m !! id = Some a ->
     exists n, n ∈ nodes /\ peers.Id n = id /\ a = private_of n).
Proof.
  induction nodes as [|x nodes IH] using rev_ind; cbv zeta.
  - cbn [foldl]. split; [apply lookup_empty|]. split.
    + intros id. rewrite lookup_empty. split.
      * intros [? ?]; discriminate.
      * intros (_ & n & Hn & _). inversion Hn.
    + intros id a. rewrite lookup_empty. discriminate.
  - rewrite foldl_app. cbn [foldl]. cbv zeta in IH.
    destruct IH as (I1 & I2 & I3).
    destruct (String.eqb (peers.Id x) nodeID) eqn:E.
    + apply String.eqb_eq in E. split; [exact I1|]. split.
      * intros id. rewrite I2. split.
        -- intros (Hne & n & Hn & Hid). split; [exact Hne|].
           exists n. split; [set_solver | exact Hid].
        -- intros (Hne & n & Hn & Hid). split; [exact Hne|].
           apply elem_of_app in Hn as [Hn|Hn].
           ++ exists n. split; assumption.
           ++ apply list_elem_of_singleton in Hn. subst n. congruence.
      * intros id a Ha. destruct (I3 id a Ha) as (n & Hn & Hid & Hv).
        exists n. split; [set_solver | split; assumption].
    + apply String.eqb_neq in E. split; [now rewrite lookup_insert_ne|]. split.
      * intros id. destruct (decide (peers.Id x = id)) as [<-|Hne'].
        -- rewrite lookup_insert_eq. split.
           ++ intros _. split; [exact E|]. exists x. split; [set_solver | reflexivity].
           ++ intros _. eexists; reflexivity.
        -- rewrite lookup_insert_ne by exact Hne'. rewrite I2. split.
           ++ intros (Hne & n & Hn & Hid). split; [exact Hne|].
              exists n. split; [set_solver | exact Hid].
           ++ intros (Hne & n & Hn & Hid). split; [exact Hne|].
              apply elem_of_app in Hn as [Hn|Hn].
              ** exists n. split; assumption.
              ** apply list_elem_of_singleton in Hn. subst n. congruence.
      * intros id a. destruct (decide (peers.Id x = id)) as [<-|Hne'].
        -- rewrite lookup_insert_eq. intros [= <-].
           exists x. split; [set_solver | split; reflexivity].
        -- rewrite lookup_insert_ne by exact Hne'. intros Ha.
           destruct (I3 id a Ha) as (n & Hn & Hid & Hv).
           exists n. split; [set_solver | split; assumption].
Qed.

Lemma elem_of_peers_List (db : gmap string peers.Node) n :
  n ∈ (snd <$> map_to_list db) <-> exists k, db !! k = Some n.
Proof.
  rewrite list_elem_of_fmap. split.
  - intros ([k n'] & -> & Hin). exists k. now apply elem_of_map_to_list.
  - intros (k & Hk). exists (k, n). split; [reflexivity|].
    now apply elem_of_map_to_list.
Qed.

(** X17.  [ListPeerPrivateRPCAddresses] fails only when listing the peers
    fails.  Otherwise the node asking is never among the keys of the map;
    every other id some peer record carries is a key; and a key is mapped
    to the address of a record with that id: its IPv4 address when that is
    valid, its IPv6 address when not, valid or not. *)
Theorem ListPeerPrivateRPCAddresses_spec fault db nodeID :
  match ListPeerPrivateRPCAddresses PrivateRPCAddrV4 PrivateRPCAddrV6
          fault db nodeID with
  | Err e => exists msg, fault = Some msg /\ e = Errorf msg
  | Ok m =>
      fault = None /\
      m !! nodeID = None /\
      (forall id, is_Some (m !! id) <->
         id <> nodeID /\ exists k n, db !! k = Some n /\ peers.Id n = id) /\
      (forall id a, m !! id = Some a ->
         exists k n, db !! k = Some n /\ peers.Id n = id /\
           a = if AddrPort_IsValid (PrivateRPCAddrV4 n)
               then PrivateRPCAddrV4 n else PrivateRPCAddrV6 n)
  end.
Proof.
  unfold ListPeerPrivateRPCAddresses, peers.List.
  destruct fault as [msg|]; [exists msg; split; reflexivity|].
  destruct (private_fold nodeID (snd <$> map_to_list db)) as (H1 & H2 & H3).
  split; [reflexivity|]. split; [exact H1|]. split.
  - intros id. rewrite H2. split.
    + intros (Hne & n & Hn & Hid). split; [exact Hne|].
      apply elem_of_peers_List in Hn as (k & Hk). exists k, n. split; assumption.
    + intros (Hne & k & n & Hk & Hid). split; [exact Hne|].
      exists n. split; [|exact Hid]. apply elem_of_peers_List. now exists k.
  - intros id a Ha. destruct (H3 id a Ha) as (n & Hn & Hid & Hv).
    apply elem_of_peers_List in Hn as (k & Hk). exists k, n.
    split; [exact Hk | split; assumption].
Qed.

Lemma public_fold nodes :
  let m := foldl (fun out node =>
                    let addr := PublicRPCAddr node in
                    if AddrPort_IsValid addr
                    then <[peers.Id node := addr]> out else out)
                 (∅ : gmap string AddrPort) nodes in
  forall id a, m !! id = Some a ->
    AddrPort_IsValid a = true /\
    exists n, n ∈ nodes /\ peers.Id n = id /\ a = PublicRPCAddr n.
Proof.
  induction nodes as [|x nodes IH] using rev_ind; cbv zeta.
  - cbn [foldl]. intros id a. rewrite lookup_empty. discriminate.
  - rewrite foldl_app. cbn [foldl]. cbv zeta in IH. intros id a.
    destruct (AddrPort_IsValid (PublicRPCAddr x)) eqn:E.
    + destruct (decide (peers.Id x = id)) as [<-|Hne].
      * rewrite lookup_insert_eq. intros [= <-]. split; [exact E|].
        exists x. split; [set_solver | split; reflexivity].
      * rewrite lookup_insert_ne by exact Hne. intros Ha.
        destruct (IH id a Ha) as (Hv & n & Hn & Hid & Hx).
        split; [exact Hv|]. exists n. split; [set_solver | split; assumption].
    + intros Ha. destruct (IH id a Ha) as (Hv & n & Hn & Hid & Hx).
      split; [exact Hv|]. exists n. split; [set_solver | split; assumption].
Qed.

(** X18.  [ListPeerPublicRPCAddresses] passes on the failure of the listing, and
    the nil map when there is no public node at all (public nodes none of
    which has a valid address give an empty map, not nil).  Otherwise it
    is the map of [ListPublicRPCAddresses] less the key of the node
    asking: that id is never a key, every other key is kept with its
    address, and each address in the map is a valid public address of a
    listed node with that id. *)
Theorem ListPeerPublicRPCAddresses_spec public nodeID :
  match ListPeerPublicRPCAddresses PublicRPCAddr public nodeID with
  | Err e => public = Err e
  | Ok None => public = Ok []
  | Ok (Some m) =>
      exists nodes all,
        public = Ok nodes /\ nodes <> [] /\
        ListPublicRPCAddresses PublicRPCAddr public = Ok (Some all) /\
        m = delete nodeID all /\
        m !! nodeID = None /\
        (forall id, id <> nodeID -> m !! id = all !! id) /\
        (forall id a, m !! id = Some a ->
           AddrPort_IsValid a = true /\
           exists n, n ∈ nodes /\ peers.Id n = id /\ a = PublicRPCAddr n)
  end.
Proof.
  unfold ListPeerPublicRPCAddresses, ListPublicRPCAddresses.
  destruct public as [nodes|e]; [|reflexivity].
  destruct nodes as [|x nodes]; [reflexivity|].
  cbn [length Nat.eqb fmap option_fmap option_map].
  eexists (x :: nodes), _. split; [reflexivity|]. split; [discriminate|].
  split; [reflexivity|]. split; [reflexivity|].
  split; [apply lookup_delete_eq|]. split.
  - intros id Hne. now apply lookup_delete_ne.
  - intros id a Ha. apply lookup_delete_Some in Ha as [_ Ha].
    exact (public_fold (x :: nodes) id a Ha).
Qed.

End RPCAddresses.

(** ** Network utilities: NTP time, EUI-64 and unique local prefixes *)

Section NTP.
Import netip netutil.

Lemma lor_disjoint k f : 0 <= f < 2 ^ 32 -> Z.lor (k * 2 ^ 32) f = k * 2 ^ 32 + f.
Proof.
  intros Hf.
  assert (H0 : Z.land (k * 2 ^ 32) f = 0).
  { apply Z.bits_inj'. intros n Hn. rewrite Z.land_spec, Z.bits_0.
    destruct (Z.lt_ge_cases n 32) as [Hlt|Hge].
    - rewrite Z.mul_pow2_bits_low by lia. reflexivity.
    - replace f with (f mod 2 ^ 32) by (apply Z.mod_small; lia).
      rewrite Z.mod_pow2_bits_high by lia. apply andb_false_r. }
  rewrite <- (Z.lxor_lor _ _ H0). symmetry. now apply Z.add_nocarry_lxor.
Qed.

(** X19.  For a time up to 2^63 nanoseconds after 1900 (the range of a
    [time.Duration]), [TimeToNTP] puts the whole seconds, modulo 2^32, in
    the high word, so that the seconds wrap around at the end of the NTP
    era; and in the low word the fraction of the second in units of
    2^-32 s, rounded to the nearest, which always fits the word: the
    rounding never carries into the seconds. *)
Theorem TimeToNTP_spec d :
  0 <= d < 2 ^ 63 ->
  exists frac,
    TimeToNTP d = (d / 1000000000 mod 2 ^ 32) * 2 ^ 32 + frac /\
    0 <= frac < 2 ^ 32 /\
    - 500000000 < frac * 1000000000 - (d mod 1000000000) * 2 ^ 32 <= 500000000.
Proof.
  intros Hd. unfold TimeToNTP.
  assert (E64 : 2 ^ 64 = 18446744073709551616) by reflexivity.
  assert (E63 : 2 ^ 63 = 9223372036854775808) by reflexivity.
  assert (E32 : 2 ^ 32 = 4294967296) by reflexivity.
  cbv zeta. unfold uint64. rewrite (Z.mod_small d) by lia.
  pose proof (Z.div_mod d 1000000000 ltac:(lia)) as Hdm.
  pose proof (Z.mod_pos_bound d 1000000000 ltac:(lia)) as Hn.
  set (sec := d / 1000000000) in *. set (n := d mod 1000000000) in *.
  assert (Hsec : 0 <= sec) by (subst sec; apply Z.div_pos; lia).
  rewrite (Z.mod_small (sec * 1000000000)) by lia.
  replace (d - sec * 1000000000) with n by lia.
  rewrite (Z.mod_small n) by lia.
  rewrite !Z.shiftl_mul_pow2 by lia.
  rewrite (Z.mod_small (n * 2 ^ 32)) by lia.
  pose proof (Z.div_mod (n * 2 ^ 32) 1000000000 ltac:(lia)) as Hqr.
  pose proof (Z.mod_pos_bound (n * 2 ^ 32) 1000000000 ltac:(lia)) as Hr.
  set (q := n * 2 ^ 32 / 1000000000) in *.
  set (r := (n * 2 ^ 32) mod 1000000000) in *.
  assert (Hq : 0 <= q <= 4294967291).
  { rewrite E32 in Hqr. lia. }
  change (1000000000 / 2) with 500000000.
  replace (2 ^ 64) with (2 ^ 32 * 2 ^ 32) by reflexivity.
  rewrite Z.mul_mod_distr_r by lia.
  destruct (500000000 <=? r) eqn:Hc.
  - apply Z.leb_le in Hc. rewrite (Z.mod_small (q + 1)) by lia.
    exists (q + 1). split; [apply lor_disjoint; lia|]. lia.
  - apply Z.leb_gt in Hc. exists q. split; [apply lor_disjoint; lia|]. lia.
Qed.

End NTP.

Section EUI64.
Import netip netutil.

Lemma lor2_byte b : 0 <= b < 256 -> 0 <= Z.lor b 2 < 256.
Proof.
  intros Hb. split; [apply Z.lor_nonneg; lia|].
  destruct (Z.eq_dec (Z.lor b 2) 0) as [->|Hnz]; [lia|].
  assert (Hpos : 0 < Z.lor b 2) by (pose proof (proj2 (Z.lor_nonneg b 2) ltac:(lia)); lia).
  change 256 with (2 ^ 8). apply Z.log2_lt_pow2; [exact Hpos|].
  rewrite Z.log2_lor by lia.
  apply Z.max_lub_lt; [|reflexivity].
  destruct (Z.eq_dec b 0) as [->|Hb0]; [reflexivity|].
  apply Z.log2_lt_pow2; lia.
Qed.

(** X20.  Of a 6-byte address [MACtoEUI64] makes 8 bytes: [ff fe] between the
    two halves, and the universal/local bit of the first byte set (not
    inverted).  So two 6-byte addresses give the same identifier exactly
    when they agree but for that bit; and the identifier, not being 6
    bytes long, is returned as it is when converted again. *)
Theorem MACtoEUI64_six mac :
  length mac = 6%nat -> Forall (fun b => 0 <= b < 256) mac ->
  length (MACtoEUI64 mac) = 8%nat /\
  MACtoEUI64 (MACtoEUI64 mac) = MACtoEUI64 mac /\
  Forall (fun b => 0 <= b < 256) (MACtoEUI64 mac) /\
  Z.testbit (nth 0 (MACtoEUI64 mac) 0) 1 = true /\
  nth 3 (MACtoEUI64 mac) 0 = 255 /\ nth 4 (MACtoEUI64 mac) 0 = 254 /\
  (forall mac', length mac' = 6%nat ->
     (MACtoEUI64 mac' = MACtoEUI64 mac <->
      Z.lor (nth 0 mac' 0) 2 = Z.lor (nth 0 mac 0) 2 /\ tl mac' = tl mac)).
Proof.
  intros Hlen Hall.
  destruct mac as [|m0 [|m1 [|m2 [|m3 [|m4 [|m5 [|]]]]]]]; try discriminate.
  unfold MACtoEUI64. cbn [length Nat.eqb negb nth].
  split; [reflexivity|]. split; [reflexivity|]. split.
  - inversion Hall as [|? ? H0 Hall1]; subst.
    inversion Hall1 as [|? ? H1 Hall2]; subst.
    inversion Hall2 as [|? ? H2 Hall3]; subst.
    inversion Hall3 as [|? ? H3 Hall4]; subst.
    inversion Hall4 as [|? ? H4 Hall5]; subst.
    inversion Hall5 as [|? ? H5 _]; subst.
    repeat constructor; try lia; apply lor2_byte; lia.
  - split; [rewrite Z.lor_spec; apply orb_true_r|].
    split; [reflexivity|]. split; [reflexivity|].
    intros mac' Hlen'.
    destruct mac' as [|n0 [|n1 [|n2 [|n3 [|n4 [|n5 [|]]]]]]]; try discriminate.
    cbn [length Nat.eqb negb nth tl]. split.
    + intros [= -> -> -> -> -> ->]. split; reflexivity.
    + intros [-> [= -> -> -> -> ->]]. reflexivity.
Qed.

End EUI64.

Section ULA.
Import netip netutil.
Variable sha1 : list Z -> list Z.

(** X21.  Given a MAC address, and with a digest of 20 bytes,
    [GenerateULA] answers a valid IPv6 /48 whose first byte is
    [fd], whose next 40 bits are the last five bytes of the digest and
    whose subnet id and interface id are zero, so that the prefix is its
    own network address; [Random64] accepts it and answers a /64 inside
    it. *)
Theorem GenerateULA_spec d mac n :
  length (sha1 (PutUint64 (TimeToNTP d) ++ MACtoEUI64 mac)%list) = 20%nat ->
  Forall (fun b => 0 <= b < 256)
         (sha1 (PutUint64 (TimeToNTP d) ++ MACtoEUI64 mac)%list) ->
  exists a,
    GenerateULA sha1 d (Ok mac) = Ok (mkPrefix (IPv6 a) 48) /\
    wf_Prefix (mkPrefix (IPv6 a) 48) /\
    a / 2 ^ 120 = 253 /\
    a / 2 ^ 80 mod 2 ^ 40
    = from_bytes (drop 15 (sha1 (PutUint64 (TimeToNTP d) ++ MACtoEUI64 mac)%list)) /\
    a mod 2 ^ 80 = 0 /\
    Masked (mkPrefix (IPv6 a) 48) = mkPrefix (IPv6 a) 48 /\
    exists a', Random64 n (mkPrefix (IPv6 a) 48) = Ok (mkPrefix (IPv6 a') 64) /\
               Contains (mkPrefix (IPv6 a) 48) (IPv6 a') = true.
Proof.
  intros Hlen Hall. unfold GenerateULA.
  set (sum := sha1 _) in *. clearbody sum.
  do 20 (destruct sum as [|? sum]; [discriminate Hlen|]).
  destruct sum; [|discriminate Hlen]. clear Hlen.
  repeat match goal with
         | H : Forall _ (_ :: _) |- _ =>
             let Hb := fresh "Hb" in
             apply Forall_cons in H as [Hb H]
         end.
  cbn [drop app repeat AddrFromSlice length from_bytes fold_left].
  match goal with
  | |- context [IPv6 ?v] => set (a := v)
  end.
  match goal with
  | |- context [_ mod _ = ?v] => set (low := v)
  end.
  assert (E128 : 2 ^ 128 = 340282366920938463463374607431768211456) by reflexivity.
  assert (E80 : 2 ^ 80 = 1208925819614629174706176) by reflexivity.
  assert (E40 : 2 ^ 40 = 1099511627776) by reflexivity.
  assert (Hlow : 0 <= low < 2 ^ 40) by (subst low; lia).
  assert (Hhi : a = (253 * 2 ^ 40 + low) * 2 ^ 80) by (subst a low; rewrite E40, E80; ring).
  assert (Ha : 0 <= a < 2 ^ 128) by (rewrite Hhi, E128, E80; lia).
  assert (Hm : a mod 2 ^ 80 = 0) by (rewrite Hhi; apply Z_mod_mult).
  assert (Hd : a / 2 ^ 80 = 253 * 2 ^ 40 + low) by (rewrite Hhi; apply Z_div_mult; lia).
  exists a. unfold PrefixFrom. cbn [isZero negb BitLen andb Z.leb Z.compare].
  split; [reflexivity|].
  split; [split; [exact Ha | split; [discriminate | cbn; lia]]|].
  split.
  { change (2 ^ 120) with (2 ^ 80 * 2 ^ 40). rewrite <- Z.div_div by lia.
    rewrite Hd. rewrite E40. symmetry. apply Z.div_unique with (r := low); lia. }
  split.
  { rewrite Hd. rewrite Z.add_comm, Z.mod_add by lia. apply Z.mod_small. exact Hlow. }
  split; [exact Hm|]. split.
  - unfold Masked. cbn [IsValid Bits Z.leb Z.compare negb Addr_].
    change (128 - 48) with 80.
    rewrite Z.shiftr_div_pow2, Z.shiftl_mul_pow2 by lia.
    f_equal. f_equal. pose proof (Z.div_mod a (2 ^ 80) ltac:(lia)). lia.
  - exists (ipam.with_subnet a (uint16 n)).
    pose proof (with_subnet_spec a _ Ha (uint16_range n)) as (Hb' & H1 & _ & _).
    split.
    + rewrite Random64_random64.
      exact (random64_ok n a (ipam.mkEnv None (fun _ => n)) 0 Ha eq_refl).
    + apply Contains_iff.
      * split; [exact Ha | split; [discriminate | cbn; lia]].
      * exact Hb'.
      * split; [reflexivity | exact H1].
Qed.

End ULA.

(** ** Network utilities: port ranges *)

Section PortRange.
Import netip netutil.

Local Abbreviation dash := ("-"%char).



(** Without a leading sign [Atoi] reads the digits. *)
Lemma Atoi_unsigned x s :
  Ascii.eqb x "+" = false -> Ascii.eqb x "-" = false ->
  Atoi (String x s)
  = match DecimalString.NilZero.uint_of_string (String x s) with
    | Some d =>
        let v := Z.of_N (N.of_uint d) in
        if (- 2 ^ 63 <=? v) && (v <=? 2 ^ 63 - 1) then Some v else None
    | None => None
    end.
Proof.
  destruct x as [[] [] [] [] [] [] [] []]; intros H1 H2;
    try discriminate H1; try discriminate H2; reflexivity.
Qed.



Lemma digits_no_dash d :
  sep.mentions dash (DecimalString.NilEmpty.string_of_uint d) = false.
Proof. induction d; simpl; try assumption; reflexivity. Qed.

Lemma itoa_no_dash z : 0 <= z -> sep.mentions dash (itoa z) = false.
Proof.
  intros Hz. unfold itoa. destruct (z <? 0) eqn:E; [apply Z.ltb_lt in E; lia|].
  destruct (N.to_uint (Z.to_N z)); try apply digits_no_dash. reflexivity.
Qed.

Lemma string_of_uint_head d :
  exists x s', DecimalString.NilZero.string_of_uint d = String x s' /\
               Ascii.eqb x "+" = false /\ Ascii.eqb x "-" = false.
Proof. destruct d; simpl; eexists _, _; repeat split. Qed.

Lemma uint_of_string_of_uint d :
  exists d', DecimalString.NilZero.uint_of_string
               (DecimalString.NilZero.string_of_uint d) = Some d' /\
             N.of_uint d' = N.of_uint d.
Proof.
  destruct (Decimal.uint_eq_dec d Decimal.Nil) as [->|Hd].
  - exists (Decimal.D0 Decimal.Nil). split; reflexivity.
  - exists d. split; [now apply DecimalString.NilZero.usu | reflexivity].
Qed.

Lemma Atoi_itoa z : 0 <= z < 2 ^ 63 -> Atoi (itoa z) = Some z.
Proof.
  intros Hz. unfold itoa. destruct (z <? 0) eqn:E; [apply Z.ltb_lt in E; lia|].
  set (d := N.to_uint (Z.to_N z)).
  destruct (string_of_uint_head d) as (x & s' & Hs & Hp & Hm).
  rewrite Hs, (Atoi_unsigned x s' Hp Hm), <- Hs.
  destruct (uint_of_string_of_uint d) as (d' & -> & Hd').
  cbv zeta. rewrite Hd'. subst d. rewrite DecimalN.Unsigned.of_to, Z2N.id by lia.
  replace (- 2 ^ 63 <=? z) with true by (symmetry; apply Z.leb_le; lia).
  replace (z <=? 2 ^ 63 - 1) with true by (symmetry; apply Z.leb_le; lia).
  reflexivity.
Qed.

(** X23.  What is written as two decimal numbers with a hyphen between reads
    back as those two numbers, whichever is the larger and however large
    within [int]; one number alone reads back as both ends. *)
Theorem ParsePortRange_round_trip a b :
  0 <= a < 2 ^ 63 -> 0 <= b < 2 ^ 63 ->
  ParsePortRange (itoa a ++ "-" ++ itoa b) = Ok (a, b) /\
  ParsePortRange (itoa a) = Ok (a, a).
Proof.
  intros Ha Hb. unfold ParsePortRange. split.
  - change (itoa a ++ "-" ++ itoa b) with (itoa a ++ String dash (itoa b)).
    rewrite (split_on_app dash (itoa a) (itoa b) (itoa_no_dash a ltac:(lia))).
    rewrite (split_on_plain dash (itoa b) (itoa_no_dash b ltac:(lia))).
    cbn [length Nat.ltb Nat.leb Nat.eqb nth].
    rewrite (Atoi_itoa a Ha), (Atoi_itoa b Hb). reflexivity.
  - rewrite (split_on_plain dash (itoa a) (itoa_no_dash a ltac:(lia))).
    cbn [length Nat.ltb Nat.leb Nat.eqb nth].
    rewrite (Atoi_itoa a Ha). reflexivity.
Qed.

End PortRange.

(** ** Network utilities: resolving with retries *)

Section ResolveRetries.
Import netutil.
Variable A : Type.
Variable resolve : nat -> Result A.
Variable done : nat -> option error.

Lemma resolve_loop_spec left : forall k,
  match resolve_loop A resolve done left k with
  | (Some addr, None) =>
      exists j, (k <= j < k + left)%nat /\ resolve j = Ok addr /\
        forall i, (k <= i < j)%nat -> is_Ok (resolve i) = false /\ done i = None
  | (None, Some err) =>
      exists j e, (k <= j < k + left)%nat /\ resolve j = Err e /\
        (forall i, (k <= i < j)%nat -> is_Ok (resolve i) = false /\ done i = None) /\
        ((S j = k + left)%nat /\
         err = Errorf ("resolve tcp address: " ++ Error e)
         \/
         (S j < k + left)%nat /\
         exists ctxErr, done j = Some ctxErr /\
           err = Errorf ("resolve tcp address: " ++ Error e ++ ": " ++ Error ctxErr))
  | (None, None) => left = O
  | (Some _, Some _) => False
  end.
Proof.
  induction left as [|left IH]; intros k; [reflexivity|].
  cbn [resolve_loop]. destruct (resolve k) as [addr|e] eqn:Hr.
  - exists k. split; [lia|]. split; [exact Hr|]. intros i Hi. lia.
  - destruct left as [|left'].
    + exists k, e. split; [lia|]. split; [exact Hr|].
      split; [intros i Hi; lia|]. left. split; [lia | reflexivity].
    + destruct (done k) as [ctxErr|] eqn:Hd.
      * exists k, e. split; [lia|]. split; [exact Hr|].
        split; [intros i Hi; lia|]. right. split; [lia|].
        exists ctxErr. split; [exact Hd | reflexivity].
      * specialize (IH (S k)).
        assert (Hstep : forall i j, (k <= i < j)%nat ->
                  (forall i, (S k <= i < j)%nat ->
                     is_Ok (resolve i) = false /\ done i = None) ->
                  is_Ok (resolve i) = false /\ done i = None).
        { intros i j Hi Hall. destruct (Nat.eq_dec i k) as [->|Hne].
          - rewrite Hr. split; [reflexivity | exact Hd].
          - apply Hall. lia. }
        destruct (resolve_loop A resolve done (S left') (S k)) as [[addr|] [err|]].
        -- exact IH.
        -- destruct IH as (j & Hj & Hok & Hall). exists j.
           split; [lia|]. split; [exact Hok|]. intros i Hi. now apply (Hstep i j).
        -- destruct IH as (j & e' & Hj & He & Hall & Hlast). exists j, e'.
           split; [lia|]. split; [exact He|].
           split; [intros i Hi; now apply (Hstep i j)|].
           destruct Hlast as [[H1 H2]|[H1 H2]]; [left | right]; (split; [lia | exact H2]).
        -- discriminate IH.
Qed.

(** X24.  [ResolveTCPAddr] tries at most [maxRetries] times and stops at the
    first success.  It answers an address exactly when some attempt
    succeeded after failures none of which met a finished context; else
    an error: that of the last attempt allowed, which is answered without
    looking at the context again, or that of the attempt after which the
    context was found done, with the context's error appended.  With
    [maxRetries] at most 0 nothing is tried and it answers neither an
    address nor an error. *)
Theorem ResolveTCPAddr_spec maxRetries :
  match ResolveTCPAddr A resolve done maxRetries with
  | (Some addr, None) =>
      exists j, (Z.of_nat j < maxRetries) /\ resolve j = Ok addr /\
        forall i, (i < j)%nat -> is_Ok (resolve i) = false /\ done i = None
  | (None, Some err) =>
      exists j e, (Z.of_nat j < maxRetries) /\ resolve j = Err e /\
        (forall i, (i < j)%nat -> is_Ok (resolve i) = false /\ done i = None) /\
        (Z.of_nat j + 1 = maxRetries /\
         err = Errorf ("resolve tcp address: " ++ Error e)
         \/
         Z.of_nat j + 1 < maxRetries /\
         exists ctxErr, done j = Some ctxErr /\
           err = Errorf ("resolve tcp address: " ++ Error e ++ ": " ++ Error ctxErr))
  | (None, None) => maxRetries <= 0
  | (Some _, Some _) => False
  end.
Proof.
  unfold ResolveTCPAddr.
  pose proof (resolve_loop_spec (Z.to_nat maxRetries) 0) as H.
  destruct (resolve_loop A resolve done (Z.to_nat maxRetries) 0) as [[addr|] [err|]].
  - exact H.
  - destruct H as (j & Hj & Hok & Hall). exists j. split; [lia|].
    split; [exact Hok|]. intros i Hi. apply Hall. lia.
  - destruct H as (j & e & Hj & He & Hall & Hlast). exists j, e.
    split; [lia|]. split; [exact He|]. split; [intros i Hi; apply Hall; lia|].
    destruct Hlast as [[H1 H2]|[H1 H2]]; [left | right]; (split; [lia | exact H2]).
  - lia.
Qed.

End ResolveRetries.

(** ** The iptables firewall: Clear *)

Section FirewallClear.
Import firewall.
Variable Fields : string -> list string.
Variable outcome : nat -> option (string * string).

Local Abbreviation commands rules :=
  (map Fields (List.filter (fun rule => negb (String.prefix "#" rule)) rules)).

Lemma restore_spec rules : forall k,
  (exists rest, commands rules = (fst (restore Fields outcome rules k) ++ rest)%list) /\
  match snd (restore Fields outcome rules k) with
  | None =>
      fst (restore Fields outcome rules k) = commands rules /\
      forall i, (i < length (commands rules))%nat -> outcome (k + i)%nat = None
  | Some e =>
      exists ran args msg out,
        fst (restore Fields outcome rules k) = (ran ++ [args])%list /\
        (forall i, (i < length ran)%nat -> outcome (k + i)%nat = None) /\
        outcome (k + length ran)%nat = Some (msg, out) /\
        e = Errorf ("iptables " ++ show_args args ++ ": " ++ msg ++ ": " ++ out)
  end.
Proof.
  induction rules as [|rule rules IH]; intros k.
  - cbn. split; [exists []; reflexivity|]. split; [reflexivity|]. intros i Hi. lia.
  - cbn [restore List.filter]. destruct (String.prefix "#" rule); cbn [negb].
    + apply IH.
    + cbn [map]. unfold exec. destruct (outcome k) as [[msg out]|] eqn:Ho.
      * cbn [fst snd]. split; [eexists; reflexivity|].
        exists [], (Fields rule), msg, out. split; [reflexivity|].
        split; [intros i Hi; cbn in Hi; lia|].
        split; [cbn; now rewrite Nat.add_0_r | reflexivity].
      * specialize (IH (S k)).
        destruct (restore Fields outcome rules (S k)) as [runs err].
        cbn [fst snd] in *. destruct IH as ((rest & Hrest) & IH).
        split; [exists rest; now rewrite Hrest|].
        destruct err as [e|].
        -- destruct IH as (ran & args & msg & out & Hruns & Hnone & Hlast & He).
           exists (Fields rule :: ran), args, msg, out.
           split; [now rewrite Hruns|]. split.
           ++ intros i Hi. destruct i as [|i]; [now rewrite Nat.add_0_r|].
              cbn in Hi. replace (k + S i)%nat with (S k + i)%nat by lia.
              apply Hnone. lia.
           ++ split; [|exact He]. cbn [length].
              replace (k + S (length ran))%nat with (S k + length ran)%nat by lia.
              exact Hlast.
        -- destruct IH as [Hruns Hnone]. split; [now rewrite Hruns|].
           intros i Hi. destruct i as [|i]; [now rewrite Nat.add_0_r|].
           cbn in Hi. replace (k + S i)%nat with (S k + i)%nat by lia.
           apply Hnone. lia.
Qed.

(** X25.  [Clear] flushes first and then runs the initial rules in order, each
    split into fields, leaving out the lines that start with [#] and no
    other: an empty line is run as a command without arguments.  It
    stops at the first command that fails and answers its error; it
    answers no error exactly when every command was run and succeeded.
    [Close] is [Clear]. *)
Theorem Clear_spec rules :
  (exists rest,
     (["-F"] :: commands rules = fst (Clear Fields outcome rules) ++ rest)%list) /\
  match snd (Clear Fields outcome rules) with
  | None =>
      fst (Clear Fields outcome rules) = ["-F"] :: commands rules /\
      forall i, (i <= length (commands rules))%nat -> outcome i = None
  | Some e =>
      exists ran args msg out,
        fst (Clear Fields outcome rules) = (ran ++ [args])%list /\
        (forall i, (i < length ran)%nat -> outcome i = None) /\
        outcome (length ran) = Some (msg, out) /\
        e = Errorf ("iptables " ++ show_args args ++ ": " ++ msg ++ ": " ++ out)
  end /\
  Close Fields outcome rules = Clear Fields outcome rules.
Proof.
  unfold Close, Clear, exec. destruct (outcome 0%nat) as [[msg out]|] eqn:Ho.
  - cbn [fst snd]. split; [eexists; reflexivity|]. split; [|reflexivity].
    exists [], ["-F"], msg, out. split; [reflexivity|].
    split; [intros i Hi; cbn in Hi; lia|]. split; [exact Ho | reflexivity].
  - pose proof (restore_spec rules 1) as H.
    destruct (restore Fields outcome rules 1) as [runs err]. cbn [fst snd] in *.
    destruct H as ((rest & Hrest) & H).
    split; [exists rest; now rewrite Hrest|]. split; [|reflexivity].
    destruct err as [e|].
    + destruct H as (ran & args & msg & out & Hruns & Hnone & Hlast & He).
      exists (["-F"] :: ran), args, msg, out.
      split; [now rewrite Hruns|]. split.
      * intros i Hi. destruct i as [|i]; [exact Ho|]. cbn in Hi.
        apply (Hnone i). lia.
      * split; [exact Hlast | exact He].
    + destruct H as [Hruns Hnone]. split; [now rewrite Hruns|].
      intros i Hi. destruct i as [|i]; [exact Ho|]. apply (Hnone i). lia.
Qed.

End FirewallClear.

(** ** The further properties on examples *)

Lemma wf_host4 : netip.wf_Prefix cases.host4.
Proof. unfold netip.wf_Prefix; simpl; split; [lia | split; [discriminate | lia]]. Qed.

Lemma allocate_many_distinct_witness :
  netip.wf_Prefix ex.cidr4 /\
  NoDup (ipam_seq.allocate_many 3 ex.plugin ex.cidr4 ∅).
Proof.
  split; [exact wf_cidr4|].
  exact (proj1 (proj2 (allocate_many_distinct 3 ex.plugin ex.cidr4 ∅ wf_cidr4))).
Defined.

Lemma next32_single_address_witness :
  ipam.next32 ex.plugin cases.host4 ∅
  = Some (Err (Errorf "no more addresses in 10.0.0.1/32")).
Proof.
  exact (next32_single_address ex.plugin cases.host4 ∅ wf_host4 eq_refl).
Defined.

Lemma random64_injective_witness :
  ipam.random64 7 ex.cidr6 = ipam.random64 65543 ex.cidr6.
Proof.
  refine (proj2 (proj1 (random64_injective 7 65543
            336299199394078926620171165654279258112 _)) eq_refl).
  lia.
Defined.

Lemma random64_inside_witness :
  exists a',
    ipam.random64 7 ex.cidr6 = Ok (netip.mkPrefix (netip.IPv6 a') 64) /\
    netip.Contains ex.cidr6 (netip.IPv6 a') = true.
Proof.
  destruct (random64_inside 7 ex.cidr6 _ wf_cidr6 eq_refl eq_refl)
    as (a' & H1 & _ & H2 & _).
  exists a'. split; assumption.
Defined.

Lemma Leave_refused_unchanged_witness :
  is_Ok (fst (membership.Leave ex.follower ex.leave_n1 ex.server)) = false /\
  snd (membership.Leave ex.follower ex.leave_n1 ex.server) = ex.server.
Proof.
  refine (Leave_refused_unchanged ex.follower ex.leave_n1 ex.server _).
  intros (_ & _ & H & _). discriminate H.
Defined.

Lemma Leave_twice_witness :
  membership.Leave ex.leader ex.leave_n1
    (snd (membership.Leave ex.leader ex.leave_n1 ex.server))
  = (Ok membership.mkLeaveResponse,
     snd (membership.Leave ex.leader ex.leave_n1 ex.server)).
Proof.
  exact (Leave_twice ex.leader ex.leader ex.leave_n1 ex.server eq_refl
           leader_n1_passes eq_refl).
Defined.

Lemma GetNode_after_Leave_witness :
  node.GetNode string peers.Id None
    (membership.storage (snd (membership.Leave ex.leader ex.leave_n1 ex.server))) "n1"
  = Err (Status NotFound "node n1 not found").
Proof.
  exact (proj1 (GetNode_after_Leave string peers.Id ex.leader ex.leave_n1 ex.server
                  eq_refl)).
Defined.

Lemma PutNetworkACL_ok_only_if_witness :
  snd (admin.PutNetworkACL ex.IsValidID ex.ValidateACL ex.ACLAction_name
         ex.admin_leader ∅ ex.acl)
  = <[ "allow-web" := ex.acl ]> ∅.
Proof.
  refine (proj2 (proj2 (proj2 (proj2 (proj2 (proj2 (proj2 (proj2
            (PutNetworkACL_ok_only_if ex.IsValidID ex.ValidateACL ex.ACLAction_name
               ex.admin_leader ∅ ex.acl _))))))))).
  reflexivity.
Defined.

Lemma PutNetworkACL_internal_only_storage_witness :
  snd (admin.PutNetworkACL ex.IsValidID ex.ValidateACL ex.ACLAction_name
         cases.admin_faulty ∅ ex.acl) = ∅.
Proof.
  refine (proj2 (proj2 (proj2 (proj2 (proj2
            (PutNetworkACL_internal_only_storage ex.IsValidID ex.ValidateACL
               ex.ACLAction_name cases.admin_faulty ∅ ex.acl _)))))).
  reflexivity.
Defined.

Lemma Configure_accepts_iff_route_witness :
  debug_server.Configure false cases.decode_nothing
  = Err (Errorf "both pprof and db querier are disabled").
Proof.
  exact (proj1 (proj2 (Configure_accepts_iff_route cases.decode_nothing
                         cases.nothing_enabled eq_refl)) eq_refl).
Defined.

Lemma handleDBList_round_trip_witness :
  text.split_on "010"
    (debug.Body (debug.handleDBList (debug.mkPlugin (Some cases.two_keys)) ""))
  = ["/registry/peers/n1"; "/registry/peers/n2"].
Proof.
  refine (proj2 (handleDBList_round_trip (debug.mkPlugin (Some cases.two_keys))
                   cases.two_keys "" _ eq_refl eq_refl _)).
  repeat constructor.
Defined.

Lemma TimeToNTP_spec_witness :
  exists frac,
    netutil.TimeToNTP cases.year2026 = 3976214400 * 2 ^ 32 + frac /\
    0 <= frac < 2 ^ 32.
Proof.
  destruct (TimeToNTP_spec cases.year2026) as (frac & H1 & H2 & _).
  - unfold cases.year2026. lia.
  - exists frac. split; [exact H1 | exact H2].
Defined.

Lemma MACtoEUI64_six_witness :
  length (netutil.MACtoEUI64 cases.mac) = 8%nat /\
  Z.testbit (nth 0 (netutil.MACtoEUI64 cases.mac) 0) 1 = true.
Proof.
  destruct (MACtoEUI64_six cases.mac) as (H1 & _ & _ & H2 & _).
  - reflexivity.
  - unfold cases.mac. repeat constructor; lia.
  - split; assumption.
Defined.

Lemma GenerateULA_spec_witness :
  exists a,
    netutil.GenerateULA cases.digest cases.year2026 (Ok cases.mac)
    = Ok (netip.mkPrefix (netip.IPv6 a) 48) /\
    a / 2 ^ 120 = 253.
Proof.
  destruct (GenerateULA_spec cases.digest cases.year2026 cases.mac 7)
    as (a & H1 & _ & H2 & _).
  - reflexivity.
  - unfold cases.digest. cbn [seq map]. repeat constructor; cbn; lia.
  - exists a. split; assumption.
Defined.


Lemma ParsePortRange_round_trip_witness :
  netutil.ParsePortRange "9000-8000" = Ok (9000, 8000) /\
  netutil.ParsePortRange "9000" = Ok (9000, 9000).
Proof.
  refine (ParsePortRange_round_trip 9000 8000 _ _); lia.
Defined.
